(** * OSMusicPlayer kernel: rendezvous barrier and VGA display tables

    A shallow embedding of class [Barrier] and of the declarations of the
    VGA driver's header (port macros, the members of class [VGA], the
    64-colour palette), with the properties the specification states about
    them.  Both are kept in [kernel/barrier.h]; line numbers are those of
    that file. *)

From Stdlib Require Import ZArith Lia.
From stdpp Require Import base option list strings.

(** ** Fixed-width integers *)

Module Int.
Local Open Scope Z_scope.

(** [int32_t]: the two's-complement value of the low 32 bits. *)
Definition int32_wrap (z : Z) : Z := (z + 2 ^ 31) mod 2 ^ 32 - 2 ^ 31.

(** [uint32_t]: the low 32 bits. *)
Definition uint32_wrap (z : Z) : Z := z mod 2 ^ 32.

End Int.

(** ** The rendezvous barrier *)

Module Barrier.
Import Int.

(** The body of a kernel routine, as the sequence of operations it performs
    on shared objects.  Each constructor is one indivisible operation; the
    continuation is what the caller does next.

    Modelled from the spec: [Atomic<T>::add_fetch], [Semaphore::up],
    [Semaphore::down] and [Debug::panic] are declared in atomic.h,
    semaphore.h and debug.h, which the barrier includes.  The countdown is
    "atomically decremented", the semaphore is a counting semaphore on
    which [down] "consumes one semaphore token (suspends until available)"
    and [up] "posts one token", and [panic] is the fatal-error sink. *)
Inductive prog : Type :=
| Return
| AddFetch (delta : Z) (k : Z → prog)
| Panic (msg : string) (k : prog)
| SemUp (k : prog)
| SemDown (k : prog).

(** class Barrier: [Atomic<int32_t> count; Semaphore sem;
    Atomic<uint32_t> ref_count]. *)
Record Barrier : Type := mkBarrier {
  count : Z;
  sem : nat;
  ref_count : Z
}.

(** [Barrier(uint32_t count) : count(count), sem(0), ref_count(0)].
    The [uint32_t] argument initialises an [int32_t] cell. *)
Definition Barrier_new (n : Z) : Barrier :=
  {| count := int32_wrap n; sem := 0; ref_count := 0 |}.

(** Lines 22-27: the part of [sync] after the panic test. *)
Definition sync_tail (x : Z) : prog :=
  if (x =? 0)%Z then SemUp Return
  else SemDown (SemUp Return).

(** [void sync()], lines 19-28. *)
Definition sync : prog :=
  AddFetch (-1) (λ x,
    if (x <? 0)%Z then Panic "count went negative in barrier" (sync_tail x)
    else sync_tail x).

(** One operation of one execution context on the barrier.  [None] means
    the context cannot move: it has returned, it is suspended in [down] on
    an empty semaphore, or it is inside [panic], which does not return. *)
Definition exec (b : Barrier) (p : prog) : option (Barrier * prog) :=
  match p with
  | Return => None
  | AddFetch d k =>
      let x := int32_wrap (count b + d) in
      Some ({| count := x; sem := sem b; ref_count := ref_count b |}, k x)
  | Panic _ _ => None
  | SemUp k =>
      Some ({| count := count b; sem := S (sem b); ref_count := ref_count b |}, k)
  | SemDown k =>
      match sem b with
      | O => None
      | S t => Some ({| count := count b; sem := t; ref_count := ref_count b |}, k)
      end
  end.

(** The barrier together with the execution contexts that called [sync],
    each holding what is left of its call. *)
Record system : Type := mkSystem {
  barrier : Barrier;
  threads : list prog
}.

(** Context [i] performs its next operation. *)
Definition step (i : nat) (s : system) : option system :=
  p ← threads s !! i;
  '(b', p') ← exec (barrier s) p;
  Some {| barrier := b'; threads := <[i := p']> (threads s) |}.

(** An interleaving: the contexts named by [sched] move in that order. *)
Fixpoint run (sched : list nat) (s : system) : option system :=
  match sched with
  | [] => Some s
  | i :: rest => s' ← step i s; run rest s'
  end.

(** A barrier for [n] parties on which [callers] contexts call [sync]. *)
Definition boot (n : Z) (callers : nat) : system :=
  {| barrier := Barrier_new n; threads := replicate callers sync |}.

(** Classification of a context by what is left of its call. *)
Definition pending (p : prog) : nat :=
  match p with AddFetch _ _ => 1 | _ => 0 end.

Definition posting (p : prog) : nat :=
  match p with SemUp _ => 1 | _ => 0 end.

Definition returned (p : prog) : nat :=
  match p with Return => 1 | _ => 0 end.

Definition panicked (p : prog) : bool :=
  match p with Panic _ _ => true | _ => false end.

(** The forms a context of [sync] can take. *)
Inductive stage : prog → Prop :=
| stage_call : stage sync
| stage_panic x : stage (Panic "count went negative in barrier" (sync_tail x))
| stage_wait : stage (SemDown (SemUp Return))
| stage_post : stage (SemUp Return)
| stage_done : stage Return.

(** Calls that have not yet decremented the countdown, tokens taken from
    the semaphore (or about to be minted by the last arrival) and not yet
    posted, and calls that have returned. *)
Definition not_arrived (l : list prog) : nat := sum_list_with pending l.
Definition tokens_in_hand (l : list prog) : nat := sum_list_with posting l.
Definition returns (l : list prog) : nat := sum_list_with returned l.

(** The countdown tracks the calls that have decremented it. *)
Definition countdown_inv (n : Z) (s : system) : Prop :=
  Forall stage (threads s) ∧
  count (barrier s) =
    int32_wrap (n - Z.of_nat (length (threads s))
                  + Z.of_nat (not_arrived (threads s))).

(** The relay holds at most one token, and none before every party has
    arrived. *)
Definition relay_inv (s : system) : Prop :=
  sem (barrier s) + tokens_in_hand (threads s) ≤ 1 ∧
  (1 ≤ sem (barrier s) + tokens_in_hand (threads s) + returns (threads s) →
   not_arrived (threads s) = 0).

(** Calls that have decremented the countdown. *)
Definition arrived (l : list prog) : nat := length l - not_arrived l.

(** The message [sync] passes to [panic]. *)
Definition panic_msg : string := "count went negative in barrier".

End Barrier.

(** ** The VGA driver's declarations *)

Module VGA.
Local Open Scope Z_scope.

(** *** Port macros (lines 68-132) *)

Definition ATTRIBUTE_INDEX_WRITE : Z := 0x3C0.
Definition ATTRIBUTE_RESET_INDEX : Z := 0x3DA.
Definition ATTRIBUTE_READ : Z := 0x3C1.
Definition MISC_WRITE : Z := 0x3C2.
Definition MISC_READ : Z := 0x3CC.
Definition SEQ_INDEX : Z := 0x3C4.
Definition SEQ_RW : Z := 0x3C5.
Definition GRAPHICS_CTRL_INDEX : Z := 0x3CE.
Definition GRAPHICS_CTRL_RW : Z := 0x3CF.
Definition CRTC_COLOR_INDEX : Z := 0x3D4.
Definition CRTC_COLOR_WRITE : Z := 0x3D5.
Definition CRTC_MONOCHROME_INDEX : Z := 0x3B4.
Definition CRTC_MONOCHROME_WRITE : Z := 0x3B5.
Definition DAC_MASK : Z := 0x3C6.
Definition COLOR_PALETTE_INDEX_READ : Z := 0x3C7.
Definition COLOR_PALETTE_INDEX_WRITE : Z := 0x3C8.
Definition COLOR_PALETTE_DATA_RW : Z := 0x3C9.

(** The register groups that are addressed through an index port and a
    data port. *)
Inductive reg_group : Type :=
| Sequencer
| GraphicsController
| CRTController_color
| CRTController_mono.

Definition index_port (g : reg_group) : Z :=
  match g with
  | Sequencer => SEQ_INDEX
  | GraphicsController => GRAPHICS_CTRL_INDEX
  | CRTController_color => CRTC_COLOR_INDEX
  | CRTController_mono => CRTC_MONOCHROME_INDEX
  end.

Definition data_port (g : reg_group) : Z :=
  match g with
  | Sequencer => SEQ_RW
  | GraphicsController => GRAPHICS_CTRL_RW
  | CRTController_color => CRTC_COLOR_WRITE
  | CRTController_mono => CRTC_MONOCHROME_WRITE
  end.

(** A byte written to an I/O address, and the log of such writes in the
    order they were issued (oldest first). *)
Record outb : Type := mkOut { out_port : Z; out_byte : Z }.

(** Modelled from the spec: the indexed write of the register protocol
    layer, whose code is in vga.cc, not in the header.  "writes the index
    byte to the group's index port, then the data byte to the group's data
    port (index port + 1)". *)
Definition indexed_write (g : reg_group) (index value : Z) (log : list outb)
  : list outb :=
  log ++ [mkOut (index_port g) index; mkOut (index_port g + 1) value].

(** *** The data members of class VGA (lines 204-224) *)

Inductive cxx_type : Type :=
| TBool
| TUInt8
| TUInt32
| TPort
| TShared (cls : string)
| TVolatile (t : cxx_type)
| TAtomic (t : cxx_type).

Record member : Type := mkMember {
  m_name : string;
  m_type : cxx_type;
  m_init : option Z
}.

Definition VGA_members : list member := [
  mkMember "attribute_port" TPort None;
  mkMember "misc_port" TPort None;
  mkMember "seq_port" TPort None;
  mkMember "graphics_ctrl" TPort None;
  mkMember "crt_ctrl_color" TPort None;
  mkMember "crt_ctrl_mono" TPort None;
  mkMember "dac_mask_port" TPort None;
  mkMember "color_pallete_port_write" TPort None;
  mkMember "color_pallete_port_read" TPort None;
  mkMember "bg_color" TUInt8 None;
  mkMember "playing" (TVolatile TBool) (Some 0);
  mkMember "new_song" (TVolatile TBool) (Some 1);
  mkMember "elapsed_time" (TAtomic TUInt32) (Some 0);
  mkMember "last_jif" TUInt32 None;
  mkMember "fs" (TShared "Names_List") None;
  mkMember "curr" (TShared "File_Node") None;
  mkMember "length" TUInt32 None;
  mkMember "width" TUInt32 None
].

Definition member_type (name : string) : option cxx_type :=
  m_type <$> find (λ m, String.eqb (m_name m) name) VGA_members.

Definition member_init (name : string) : option Z :=
  find (λ m, String.eqb (m_name m) name) VGA_members ≫= m_init.

(** How a member may be accessed from two execution contexts: through the
    [Atomic] wrapper's indivisible operations, or as an ordinary object
    (which [volatile] does not change). *)
Inductive discipline : Type :=
| AtomicWord
| PlainField.

Fixpoint discipline_of (t : cxx_type) : discipline :=
  match t with
  | TAtomic _ => AtomicWord
  | TVolatile t' => discipline_of t'
  | _ => PlainField
  end.

Definition member_discipline (name : string) : option discipline :=
  discipline_of <$> member_type name.

(** *** The palette (lines 415-480) *)

Definition palette : list Z := [
    0x00; 0x00; 0x00;  0x00; 0x00; 0x55;  0x00; 0x00; 0xAA;  0x00; 0x00; 0xFF;
    0x00; 0x55; 0x00;  0x00; 0x55; 0x55;  0x00; 0x55; 0xAA;  0x00; 0x55; 0xFF;
    0x00; 0xAA; 0x00;  0x00; 0xAA; 0x55;  0x00; 0xAA; 0xAA;  0x00; 0xAA; 0xFF;
    0x00; 0xFF; 0x00;  0x00; 0xFF; 0x55;  0x00; 0xFF; 0xAA;  0x00; 0xFF; 0xFF;
    0x55; 0x00; 0x00;  0x55; 0x00; 0x55;  0x55; 0x00; 0xAA;  0x55; 0x00; 0xFF;
    0x55; 0x55; 0x00;  0x55; 0x55; 0x55;  0x55; 0x55; 0xAA;  0x55; 0x55; 0xFF;
    0x55; 0xAA; 0x00;  0x55; 0xAA; 0x55;  0x55; 0xAA; 0xAA;  0x55; 0xAA; 0xFF;
    0x55; 0xFF; 0x00;  0x55; 0xFF; 0x55;  0x55; 0xFF; 0xAA;  0x55; 0xFF; 0xFF;
    0xAA; 0x00; 0x00;  0xAA; 0x00; 0x55;  0xAA; 0x00; 0xAA;  0xAA; 0x00; 0xFF;
    0xAA; 0x55; 0x00;  0xAA; 0x55; 0x55;  0xAA; 0x55; 0xAA;  0xAA; 0x55; 0xFF;
    0xAA; 0xAA; 0x00;  0xAA; 0xAA; 0x55;  0xAA; 0xAA; 0xAA;  0xAA; 0xAA; 0xFF;
    0xAA; 0xFF; 0x00;  0xAA; 0xFF; 0x55;  0xAA; 0xFF; 0xAA;  0xAA; 0xFF; 0xFF;
    0xFF; 0x00; 0x00;  0xFF; 0x00; 0x55;  0xFF; 0x00; 0xAA;  0xFF; 0x00; 0xFF;
    0xFF; 0x55; 0x00;  0xFF; 0x55; 0x55;  0xFF; 0x55; 0xAA;  0xFF; 0x55; 0xFF;
    0xFF; 0xAA; 0x00;  0xFF; 0xAA; 0x55;  0xFF; 0xAA; 0xAA;  0xFF; 0xAA; 0xFF;
    0xFF; 0xFF; 0x00;  0xFF; 0xFF; 0x55;  0xFF; 0xFF; 0xAA;  0xFF; 0xFF; 0xFF
].

Definition rgb : Type := Z * Z * Z.

(** Palette entry [i]: bytes [3i], [3i+1], [3i+2]. *)
Definition paletteRGB (i : nat) : rgb :=
  (nth (3 * i) palette 0, nth (3 * i + 1) palette 0, nth (3 * i + 2) palette 0).

Definition palette_entries : list rgb := paletteRGB <$> seq 0 64.

(** *** Nearest palette colour *)

Section NearestMatch.

(** Modelled from the spec: the distance the search minimises is in
    vga.cc; the spec calls it "a distance metric over the three
    channels". *)
Variable dist : rgb → rgb → Z.

(** Entries [i], [i+1], ... ([n] of them) are compared with the best so
    far; only a strictly smaller distance replaces it. *)
Fixpoint nearest (c : rgb) (n i best : nat) (bestd : Z) : nat :=
  match n with
  | O => best
  | S n' =>
      let d := dist c (paletteRGB i) in
      if d <? bestd then nearest c n' (S i) i d
      else nearest c n' (S i) best bestd
  end.

(** Modelled from the spec: [uint8_t getColor(uint8_t r, uint8_t g,
    uint8_t b)] is declared at line 249 and defined in vga.cc.  It
    "performs a nearest-match search over the 64-entry palette (exact
    algorithm: minimize a distance metric over the three channels; ties
    broken by lowest palette index)". *)
Definition getColor (r g b : Z) : Z :=
  Z.of_nat (nearest (r, g, b) 63 1 0 (dist (r, g, b) (paletteRGB 0))).

(** [best] is the lowest index among the nearest of entries [0..i). *)
Definition least_nearest (c : rgb) (i best : nat) : Prop :=
  (best < i)%nat ∧
  ∀ j : nat, (j < i)%nat →
    dist c (paletteRGB best) ≤ dist c (paletteRGB j) ∧
    (dist c (paletteRGB j) = dist c (paletteRGB best) → (best ≤ j)%nat).

End NearestMatch.

(** The sum of the squared channel differences, one distance of the kind
    the spec describes. *)
Definition sq_dist (c c' : rgb) : Z :=
  let '(r, g, b) := c in
  let '(r', g', b') := c' in
  (r - r') * (r - r') + (g - g') * (g - g') + (b - b') * (b - b').

(** *** The playback coordinator *)

Section Playback.

(** [File_Node] is a class of ext2.h; [Shared<File_Node>] is a counted
    reference that may be null. *)
Variable File_Node : Type.

(** The playback state kept in class VGA: [playing], [new_song],
    [elapsed_time] and [curr]. *)
Record playback : Type := mkPlayback {
  playing : bool;
  new_song : bool;
  elapsed_time : Z;
  curr : option File_Node
}.

Inductive playback_state : Type :=
| Stopped
| Playing
| Paused.

(** "current file reference is null exactly when no song is loaded" *)
Definition state_of (v : playback) : playback_state :=
  match curr v with
  | None => Stopped
  | Some _ => if playing v then Playing else Paused
  end.

(** Modelled from the spec: [void spotify(Shared<File_Node> song, bool
    willPlay)] is declared at line 274 and defined in vga.cc.  It "loads
    a new file reference, resets elapsed time to zero, sets new_song, and
    enters Playing or Paused per willPlay". *)
Definition spotify (song : option File_Node) (willPlay : bool)
    (v : playback) : playback :=
  {| playing := willPlay; new_song := true; elapsed_time := 0; curr := song |}.

(** Modelled from the spec: [void play_pause()] is declared at line 278
    and defined in vga.cc.  It "toggles Playing ↔ Paused without changing
    the loaded file or resetting elapsed time"; "operating on a
    null/absent current file is a no-op". *)
Definition play_pause (v : playback) : playback :=
  match curr v with
  | None => v
  | Some _ =>
      {| playing := negb (playing v); new_song := new_song v;
         elapsed_time := elapsed_time v; curr := curr v |}
  end.

(** Modelled from the spec: [void playingSong(uint32_t)] is declared at
    line 255 and defined in vga.cc.  "while Playing, it advances the
    elapsed-time counter by tick_delta"; "while Paused or Stopped, ticks
    are accepted but do not advance elapsed time".  The counter is an
    [Atomic<uint32_t>]. *)
Definition playingSong (tick_delta : Z) (v : playback) : playback :=
  match state_of v with
  | Playing =>
      {| playing := playing v; new_song := new_song v;
         elapsed_time := Int.uint32_wrap (elapsed_time v + tick_delta);
         curr := curr v |}
  | _ => v
  end.

End Playback.

Arguments playing {File_Node} _.
Arguments new_song {File_Node} _.
Arguments elapsed_time {File_Node} _.
Arguments curr {File_Node} _.
Arguments state_of {File_Node} _.
Arguments spotify {File_Node} _ _ _.
Arguments play_pause {File_Node} _.
Arguments playingSong {File_Node} _ _.

End VGA.

(** ** Runs of the barrier: measures and invariants *)

Module BarrierRuns.
Import Int Barrier.

(** Contexts suspended in (or about to call) [down], and contexts inside
    [panic]. *)
Definition waiting (p : prog) : nat :=
  match p with SemDown _ => 1 | _ => 0 end.

Definition dead (p : prog) : nat :=
  match p with Panic _ _ => 1 | _ => 0 end.

Definition waiters (l : list prog) : nat := sum_list_with waiting l.
Definition panics (l : list prog) : nat := sum_list_with dead l.

(** The operations a context of [sync] can still perform: the decrement,
    the [down] and the [up] (lines 20, 25, 26). *)
Definition steps_left (p : prog) : nat :=
  match p with
  | AddFetch _ _ => 3
  | SemDown _ => 2
  | SemUp _ => 1
  | _ => 0
  end.

Definition work (l : list prog) : nat := sum_list_with steps_left l.

(** With as many callers as parties: nobody is inside [panic], and once
    every call has decremented the countdown the relay token exists. *)
Definition live_inv (s : system) : Prop :=
  panics (threads s) = 0 ∧
  (not_arrived (threads s) = 0 → threads s ≠ [] →
   sem (barrier s) + tokens_in_hand (threads s) = 1).

(** With fewer callers than parties: the semaphore stays empty and every
    context is either before its decrement or at its [down]. *)
Definition starved_inv (s : system) : Prop :=
  sem (barrier s) = 0 ∧
  Forall (λ p, p = sync ∨ p = SemDown (SemUp Return)) (threads s).

(** Every call has returned. *)
Definition all_returned (s : system) : Prop :=
  returns (threads s) = length (threads s).

End BarrierRuns.

(** ** The font table and the colour names *)

Module Tables.
Local Open Scope Z_scope.

(** [uint8_t vga_font[128][8]] (lines 284-413): one row of eight bytes per
    character code. *)
Definition vga_font : list (list Z) := [
  [0x00; 0x00; 0x00; 0x00; 0x00; 0x00; 0x00; 0x00];
  [0x00; 0x00; 0x00; 0x00; 0x00; 0x00; 0x00; 0x00];
  [0x00; 0x00; 0x00; 0x00; 0x00; 0x00; 0x00; 0x00];
  [0x00; 0x00; 0x00; 0x00; 0x00; 0x00; 0x00; 0x00];
  [0x00; 0x00; 0x00; 0x00; 0x00; 0x00; 0x00; 0x00];
  [0x00; 0x00; 0x00; 0x00; 0x00; 0x00; 0x00; 0x00];
  [0x00; 0x00; 0x00; 0x00; 0x00; 0x00; 0x00; 0x00];
  [0x00; 0x00; 0x00; 0x00; 0x00; 0x00; 0x00; 0x00];
  [0x00; 0x00; 0x00; 0x00; 0x00; 0x00; 0x00; 0x00];
  [0x00; 0x00; 0x00; 0x00; 0x00; 0x00; 0x00; 0x00];
  [0x00; 0x00; 0x00; 0x00; 0x00; 0x00; 0x00; 0x00];
  [0x00; 0x00; 0x00; 0x00; 0x00; 0x00; 0x00; 0x00];
  [0x00; 0x00; 0x00; 0x00; 0x00; 0x00; 0x00; 0x00];
  [0x00; 0x00; 0x00; 0x00; 0x00; 0x00; 0x00; 0x00];
  [0x00; 0x00; 0x00; 0x00; 0x00; 0x00; 0x00; 0x00];
  [0x00; 0x00; 0x00; 0x00; 0x00; 0x00; 0x00; 0x00];
  [0x00; 0x00; 0x00; 0x00; 0x00; 0x00; 0x00; 0x00];
  [0x00; 0x00; 0x00; 0x00; 0x00; 0x00; 0x00; 0x00];
  [0x00; 0x00; 0x00; 0x00; 0x00; 0x00; 0x00; 0x00];
  [0x00; 0x00; 0x00; 0x00; 0x00; 0x00; 0x00; 0x00];
  [0x00; 0x00; 0x00; 0x00; 0x00; 0x00; 0x00; 0x00];
  [0x00; 0x00; 0x00; 0x00; 0x00; 0x00; 0x00; 0x00];
  [0x00; 0x00; 0x00; 0x00; 0x00; 0x00; 0x00; 0x00];
  [0x00; 0x00; 0x00; 0x00; 0x00; 0x00; 0x00; 0x00];
  [0x00; 0x00; 0x00; 0x00; 0x00; 0x00; 0x00; 0x00];
  [0x00; 0x00; 0x00; 0x00; 0x00; 0x00; 0x00; 0x00];
  [0x00; 0x00; 0x00; 0x00; 0x00; 0x00; 0x00; 0x00];
  [0x00; 0x00; 0x00; 0x00; 0x00; 0x00; 0x00; 0x00];
  [0x00; 0x00; 0x00; 0x00; 0x00; 0x00; 0x00; 0x00];
  [0x00; 0x00; 0x00; 0x00; 0x00; 0x00; 0x00; 0x00];
  [0x00; 0x00; 0x00; 0x00; 0x00; 0x00; 0x00; 0x00];
  [0x00; 0x00; 0x00; 0x00; 0x00; 0x00; 0x00; 0x00];
  [0x00; 0x00; 0x00; 0x00; 0x00; 0x00; 0x00; 0x00];
  [0x18; 0x3C; 0x3C; 0x18; 0x18; 0x00; 0x18; 0x00];
  [0x36; 0x36; 0x00; 0x00; 0x00; 0x00; 0x00; 0x00];
  [0x36; 0x36; 0x7F; 0x36; 0x7F; 0x36; 0x36; 0x00];
  [0x0C; 0x3E; 0x03; 0x1E; 0x30; 0x1F; 0x0C; 0x00];
  [0x00; 0x63; 0x33; 0x18; 0x0C; 0x66; 0x63; 0x00];
  [0x1C; 0x36; 0x1C; 0x6E; 0x3B; 0x33; 0x6E; 0x00];
  [0x06; 0x06; 0x03; 0x00; 0x00; 0x00; 0x00; 0x00];
  [0x18; 0x0C; 0x06; 0x06; 0x06; 0x0C; 0x18; 0x00];
  [0x06; 0x0C; 0x18; 0x18; 0x18; 0x0C; 0x06; 0x00];
  [0x00; 0x66; 0x3C; 0xFF; 0x3C; 0x66; 0x00; 0x00];
  [0x00; 0x0C; 0x0C; 0x3F; 0x0C; 0x0C; 0x00; 0x00];
  [0x00; 0x00; 0x00; 0x00; 0x00; 0x0C; 0x0C; 0x06];
  [0x00; 0x00; 0x00; 0x3F; 0x00; 0x00; 0x00; 0x00];
  [0x00; 0x00; 0x00; 0x00; 0x00; 0x0C; 0x0C; 0x00];
  [0x60; 0x30; 0x18; 0x0C; 0x06; 0x03; 0x01; 0x00];
  [0x3E; 0x63; 0x73; 0x7B; 0x6F; 0x67; 0x3E; 0x00];
  [0x0C; 0x0E; 0x0C; 0x0C; 0x0C; 0x0C; 0x3F; 0x00];
  [0x1E; 0x33; 0x30; 0x1C; 0x06; 0x33; 0x3F; 0x00];
  [0x1E; 0x33; 0x30; 0x1C; 0x30; 0x33; 0x1E; 0x00];
  [0x38; 0x3C; 0x36; 0x33; 0x7F; 0x30; 0x78; 0x00];
  [0x3F; 0x03; 0x1F; 0x30; 0x30; 0x33; 0x1E; 0x00];
  [0x1C; 0x06; 0x03; 0x1F; 0x33; 0x33; 0x1E; 0x00];
  [0x3F; 0x33; 0x30; 0x18; 0x0C; 0x0C; 0x0C; 0x00];
  [0x1E; 0x33; 0x33; 0x1E; 0x33; 0x33; 0x1E; 0x00];
  [0x1E; 0x33; 0x33; 0x3E; 0x30; 0x18; 0x0E; 0x00];
  [0x00; 0x0C; 0x0C; 0x00; 0x00; 0x0C; 0x0C; 0x00];
  [0x00; 0x0C; 0x0C; 0x00; 0x00; 0x0C; 0x0C; 0x06];
  [0x18; 0x0C; 0x06; 0x03; 0x06; 0x0C; 0x18; 0x00];
  [0x00; 0x00; 0x3F; 0x00; 0x00; 0x3F; 0x00; 0x00];
  [0x06; 0x0C; 0x18; 0x30; 0x18; 0x0C; 0x06; 0x00];
  [0x1E; 0x33; 0x30; 0x18; 0x0C; 0x00; 0x0C; 0x00];
  [0x3E; 0x63; 0x7B; 0x7B; 0x7B; 0x03; 0x1E; 0x00];
  [0x0C; 0x1E; 0x33; 0x33; 0x3F; 0x33; 0x33; 0x00];
  [0x3F; 0x66; 0x66; 0x3E; 0x66; 0x66; 0x3F; 0x00];
  [0x3C; 0x66; 0x03; 0x03; 0x03; 0x66; 0x3C; 0x00];
  [0x1F; 0x36; 0x66; 0x66; 0x66; 0x36; 0x1F; 0x00];
  [0x7F; 0x46; 0x16; 0x1E; 0x16; 0x46; 0x7F; 0x00];
  [0x7F; 0x46; 0x16; 0x1E; 0x16; 0x06; 0x0F; 0x00];
  [0x3C; 0x66; 0x03; 0x03; 0x73; 0x66; 0x7C; 0x00];
  [0x33; 0x33; 0x33; 0x3F; 0x33; 0x33; 0x33; 0x00];
  [0x1E; 0x0C; 0x0C; 0x0C; 0x0C; 0x0C; 0x1E; 0x00];
  [0x78; 0x30; 0x30; 0x30; 0x33; 0x33; 0x1E; 0x00];
  [0x67; 0x66; 0x36; 0x1E; 0x36; 0x66; 0x67; 0x00];
  [0x0F; 0x06; 0x06; 0x06; 0x46; 0x66; 0x7F; 0x00];
  [0x63; 0x77; 0x7F; 0x7F; 0x6B; 0x63; 0x63; 0x00];
  [0x63; 0x67; 0x6F; 0x7B; 0x73; 0x63; 0x63; 0x00];
  [0x1C; 0x36; 0x63; 0x63; 0x63; 0x36; 0x1C; 0x00];
  [0x3F; 0x66; 0x66; 0x3E; 0x06; 0x06; 0x0F; 0x00];
  [0x1E; 0x33; 0x33; 0x33; 0x3B; 0x1E; 0x38; 0x00];
  [0x3F; 0x66; 0x66; 0x3E; 0x36; 0x66; 0x67; 0x00];
  [0x1E; 0x33; 0x07; 0x0E; 0x38; 0x33; 0x1E; 0x00];
  [0x3F; 0x2D; 0x0C; 0x0C; 0x0C; 0x0C; 0x1E; 0x00];
  [0x33; 0x33; 0x33; 0x33; 0x33; 0x33; 0x3F; 0x00];
  [0x33; 0x33; 0x33; 0x33; 0x33; 0x1E; 0x0C; 0x00];
  [0x63; 0x63; 0x63; 0x6B; 0x7F; 0x77; 0x63; 0x00];
  [0x63; 0x63; 0x36; 0x1C; 0x1C; 0x36; 0x63; 0x00];
  [0x33; 0x33; 0x33; 0x1E; 0x0C; 0x0C; 0x1E; 0x00];
  [0x7F; 0x63; 0x31; 0x18; 0x4C; 0x66; 0x7F; 0x00];
  [0x1E; 0x06; 0x06; 0x06; 0x06; 0x06; 0x1E; 0x00];
  [0x03; 0x06; 0x0C; 0x18; 0x30; 0x60; 0x40; 0x00];
  [0x1E; 0x18; 0x18; 0x18; 0x18; 0x18; 0x1E; 0x00];
  [0x08; 0x1C; 0x36; 0x63; 0x00; 0x00; 0x00; 0x00];
  [0x00; 0x00; 0x00; 0x00; 0x00; 0x00; 0x00; 0xFF];
  [0x0C; 0x0C; 0x18; 0x00; 0x00; 0x00; 0x00; 0x00];
  [0x00; 0x00; 0x1E; 0x30; 0x3E; 0x33; 0x6E; 0x00];
  [0x07; 0x06; 0x06; 0x3E; 0x66; 0x66; 0x3B; 0x00];
  [0x00; 0x00; 0x1E; 0x33; 0x03; 0x33; 0x1E; 0x00];
  [0x38; 0x30; 0x30; 0x3E; 0x33; 0x33; 0x6E; 0x00];
  [0x00; 0x00; 0x1E; 0x33; 0x3F; 0x03; 0x1E; 0x00];
  [0x1C; 0x36; 0x06; 0x0F; 0x06; 0x06; 0x0F; 0x00];
  [0x00; 0x00; 0x6E; 0x33; 0x33; 0x3E; 0x30; 0x1F];
  [0x07; 0x06; 0x36; 0x6E; 0x66; 0x66; 0x67; 0x00];
  [0x0C; 0x00; 0x0E; 0x0C; 0x0C; 0x0C; 0x1E; 0x00];
  [0x30; 0x00; 0x30; 0x30; 0x30; 0x33; 0x33; 0x1E];
  [0x07; 0x06; 0x66; 0x36; 0x1E; 0x36; 0x67; 0x00];
  [0x0E; 0x0C; 0x0C; 0x0C; 0x0C; 0x0C; 0x1E; 0x00];
  [0x00; 0x00; 0x33; 0x7F; 0x7F; 0x6B; 0x63; 0x00];
  [0x00; 0x00; 0x1F; 0x33; 0x33; 0x33; 0x33; 0x00];
  [0x00; 0x00; 0x1E; 0x33; 0x33; 0x33; 0x1E; 0x00];
  [0x00; 0x00; 0x3B; 0x66; 0x66; 0x3E; 0x06; 0x0F];
  [0x00; 0x00; 0x6E; 0x33; 0x33; 0x3E; 0x30; 0x78];
  [0x00; 0x00; 0x3B; 0x6E; 0x66; 0x06; 0x0F; 0x00];
  [0x00; 0x00; 0x3E; 0x03; 0x1E; 0x30; 0x1F; 0x00];
  [0x08; 0x0C; 0x3E; 0x0C; 0x0C; 0x2C; 0x18; 0x00];
  [0x00; 0x00; 0x33; 0x33; 0x33; 0x33; 0x6E; 0x00];
  [0x00; 0x00; 0x33; 0x33; 0x33; 0x1E; 0x0C; 0x00];
  [0x00; 0x00; 0x63; 0x6B; 0x7F; 0x7F; 0x36; 0x00];
  [0x00; 0x00; 0x63; 0x36; 0x1C; 0x36; 0x63; 0x00];
  [0x00; 0x00; 0x33; 0x33; 0x33; 0x3E; 0x30; 0x1F];
  [0x00; 0x00; 0x3F; 0x19; 0x0C; 0x26; 0x3F; 0x00];
  [0x38; 0x0C; 0x0C; 0x07; 0x0C; 0x0C; 0x38; 0x00];
  [0x18; 0x18; 0x18; 0x00; 0x18; 0x18; 0x18; 0x00];
  [0x07; 0x0C; 0x0C; 0x38; 0x0C; 0x0C; 0x07; 0x00];
  [0x6E; 0x3B; 0x00; 0x00; 0x00; 0x00; 0x00; 0x00];
  [0x00; 0x00; 0x00; 0x00; 0x00; 0x00; 0x00; 0x00]
].

(** [vga_font[c]]. *)
Definition glyph (c : nat) : list Z := nth c vga_font [].

Definition blank (g : list Z) : bool := forallb (Z.eqb 0) g.

(** The character codes that print something: '!' (0x21) to '~' (0x7E). *)
Definition printable (c : nat) : bool := (33 <=? c)%nat && (c <=? 126)%nat.

(** [enum vga_colors] (lines 135-200). *)
Inductive vga_colors : Type :=
| BLACK
| NAVY_BLUE
| GREEN
| TEAL
| RED
| PINKISH_PURPLE
| MUSTARD
| GRAY
| DARK_BLUE
| BLUE
| MINT
| SKY_BLUE
| RED_WINE
| BRIGHTER_PURPLE
| DIJON_MUSTARD
| LAVENDER
| DARK_GREEN
| DENIM_BLUE
| NEON_GREEN
| BLUEISH_GREEN
| BROWN
| PASTEL_PURPLE
| YELLOW_GREEN
| WHITEISH_GREEN
| GASOLINE_GREEN
| ELECTRIC_BLUE
| GREEN_TWO
| TURQUOISE
| RED_CLAY
| BRIGHT_PURPLE
| YELLOW_GREEN_TWO
| REALLY_BRIGHT_SKY
| MAROON
| JOKER_PURPLE
| SLIGHTLY_DARK_GREEN
| DARK_TEAL
| BRIGHT_RED
| NEON_PINK
| ORANGE_JUICE
| SALMON
| GRAPE
| PURPLEISH_BLUE
| GREEN_THREE
| SKY_BLUE_TWO
| PINKISH_RED
| HOT_PINK
| LIGHT_MUSTARD
| LILAC
| FOREST_GREEN
| PASTEL_INDIGO
| SPEARAMINT
| MOUTHWASH_GREEN
| ORANGE
| PINK
| BRIGHT_YELLOW
| WHITE_YELLOW
| DARK_GRAY
| INDIGO
| GREEN_FOUR
| TURQUOISE_TWO
| CORAL
| HOT_PINK_TWO
| YELLOW
| WHITE.

(** The value of an enumerator: its position in the declaration, from 0. *)
Definition color_index (c : vga_colors) : nat :=
  match c with
  | BLACK => 0
  | NAVY_BLUE => 1
  | GREEN => 2
  | TEAL => 3
  | RED => 4
  | PINKISH_PURPLE => 5
  | MUSTARD => 6
  | GRAY => 7
  | DARK_BLUE => 8
  | BLUE => 9
  | MINT => 10
  | SKY_BLUE => 11
  | RED_WINE => 12
  | BRIGHTER_PURPLE => 13
  | DIJON_MUSTARD => 14
  | LAVENDER => 15
  | DARK_GREEN => 16
  | DENIM_BLUE => 17
  | NEON_GREEN => 18
  | BLUEISH_GREEN => 19
  | BROWN => 20
  | PASTEL_PURPLE => 21
  | YELLOW_GREEN => 22
  | WHITEISH_GREEN => 23
  | GASOLINE_GREEN => 24
  | ELECTRIC_BLUE => 25
  | GREEN_TWO => 26
  | TURQUOISE => 27
  | RED_CLAY => 28
  | BRIGHT_PURPLE => 29
  | YELLOW_GREEN_TWO => 30
  | REALLY_BRIGHT_SKY => 31
  | MAROON => 32
  | JOKER_PURPLE => 33
  | SLIGHTLY_DARK_GREEN => 34
  | DARK_TEAL => 35
  | BRIGHT_RED => 36
  | NEON_PINK => 37
  | ORANGE_JUICE => 38
  | SALMON => 39
  | GRAPE => 40
  | PURPLEISH_BLUE => 41
  | GREEN_THREE => 42
  | SKY_BLUE_TWO => 43
  | PINKISH_RED => 44
  | HOT_PINK => 45
  | LIGHT_MUSTARD => 46
  | LILAC => 47
  | FOREST_GREEN => 48
  | PASTEL_INDIGO => 49
  | SPEARAMINT => 50
  | MOUTHWASH_GREEN => 51
  | ORANGE => 52
  | PINK => 53
  | BRIGHT_YELLOW => 54
  | WHITE_YELLOW => 55
  | DARK_GRAY => 56
  | INDIGO => 57
  | GREEN_FOUR => 58
  | TURQUOISE_TWO => 59
  | CORAL => 60
  | HOT_PINK_TWO => 61
  | YELLOW => 62
  | WHITE => 63
  end.

(** The enumerators in the order they are declared. *)
Definition all_colors : list vga_colors := [
  BLACK; NAVY_BLUE; GREEN; TEAL;
  RED; PINKISH_PURPLE; MUSTARD; GRAY;
  DARK_BLUE; BLUE; MINT; SKY_BLUE;
  RED_WINE; BRIGHTER_PURPLE; DIJON_MUSTARD; LAVENDER;
  DARK_GREEN; DENIM_BLUE; NEON_GREEN; BLUEISH_GREEN;
  BROWN; PASTEL_PURPLE; YELLOW_GREEN; WHITEISH_GREEN;
  GASOLINE_GREEN; ELECTRIC_BLUE; GREEN_TWO; TURQUOISE;
  RED_CLAY; BRIGHT_PURPLE; YELLOW_GREEN_TWO; REALLY_BRIGHT_SKY;
  MAROON; JOKER_PURPLE; SLIGHTLY_DARK_GREEN; DARK_TEAL;
  BRIGHT_RED; NEON_PINK; ORANGE_JUICE; SALMON;
  GRAPE; PURPLEISH_BLUE; GREEN_THREE; SKY_BLUE_TWO;
  PINKISH_RED; HOT_PINK; LIGHT_MUSTARD; LILAC;
  FOREST_GREEN; PASTEL_INDIGO; SPEARAMINT; MOUTHWASH_GREEN;
  ORANGE; PINK; BRIGHT_YELLOW; WHITE_YELLOW;
  DARK_GRAY; INDIGO; GREEN_FOUR; TURQUOISE_TWO;
  CORAL; HOT_PINK_TWO; YELLOW; WHITE
].

(** The two ways of fitting a palette byte into a six-bit DAC register
    (line 121: "Each register in DAC has 18 bits, 6 bits for each color"):
    keeping its low six bits, or dropping its low two. *)
Definition low6 (byte : Z) : Z := Z.land byte 0x3F.
Definition high6 (byte : Z) : Z := Z.shiftr byte 2.

Definition dacRGB (i : nat) : VGA.rgb :=
  let '(r, g, b) := VGA.paletteRGB i in (low6 r, low6 g, low6 b).

(** The port macros of lines 68-132, in the order they are defined. *)
Definition port_macros : list Z := [
  VGA.ATTRIBUTE_INDEX_WRITE; VGA.ATTRIBUTE_RESET_INDEX; VGA.ATTRIBUTE_READ;
  VGA.MISC_WRITE; VGA.MISC_READ; VGA.SEQ_INDEX; VGA.SEQ_RW;
  VGA.GRAPHICS_CTRL_INDEX; VGA.GRAPHICS_CTRL_RW;
  VGA.CRTC_COLOR_INDEX; VGA.CRTC_COLOR_WRITE;
  VGA.CRTC_MONOCHROME_INDEX; VGA.CRTC_MONOCHROME_WRITE;
  VGA.DAC_MASK; VGA.COLOR_PALETTE_INDEX_READ; VGA.COLOR_PALETTE_INDEX_WRITE;
  VGA.COLOR_PALETTE_DATA_RW
].

End Tables.

(** ** Facts about the fixed-width integers *)

Module IntFacts.
Import Int.
Local Open Scope Z_scope.

Lemma int32_wrap_range z : - 2 ^ 31 <= int32_wrap z < 2 ^ 31.
Proof.
  unfold int32_wrap.
  pose proof (Z.mod_pos_bound (z + 2 ^ 31) (2 ^ 32) ltac:(lia)). lia.
Qed.

Lemma int32_wrap_small z : - 2 ^ 31 <= z < 2 ^ 31 -> int32_wrap z = z.
Proof.
  intros Hz. unfold int32_wrap. rewrite Z.mod_small by lia. lia.
Qed.

Lemma int32_wrap_add_l a d : int32_wrap (int32_wrap a + d) = int32_wrap (a + d).
Proof.
  unfold int32_wrap.
  replace ((a + 2 ^ 31) mod 2 ^ 32 - 2 ^ 31 + d + 2 ^ 31)
    with ((a + 2 ^ 31) mod 2 ^ 32 + d) by lia.
  rewrite Zplus_mod_idemp_l. f_equal. f_equal. lia.
Qed.

(** A value in the unsigned 32-bit range whose signed view is zero is zero. *)
Lemma int32_wrap_zero z : 0 <= z < 2 ^ 32 -> int32_wrap z = 0 -> z = 0.
Proof.
  unfold int32_wrap. intros Hz H.
  destruct (Z_lt_ge_dec z (2 ^ 31)) as [Hlt | Hge].
  - rewrite Z.mod_small in H by lia. lia.
  - replace (z + 2 ^ 31) with (z - 2 ^ 31 + 1 * 2 ^ 32) in H by lia.
    rewrite Z_mod_plus_full, Z.mod_small in H by lia. lia.
Qed.

End IntFacts.

(** ** Properties of the barrier *)

Module BarrierFacts.
Import Int IntFacts Barrier.

(** *** Bookkeeping over the list of contexts *)

Lemma sum_list_with_insert {A} (f : A → nat) (l : list A) i p q :
  l !! i = Some p →
  sum_list_with f (<[i := q]> l) + f p = sum_list_with f l + f q.
Proof.
  revert i. induction l as [| a l IH]; intros [| i] Hi; simpl in *; try done.
  - injection Hi as ->. lia.
  - specialize (IH i Hi). lia.
Qed.

Lemma sum_list_with_replicate {A} (f : A → nat) n (a : A) :
  sum_list_with f (replicate n a) = n * f a.
Proof. induction n as [| n IH]; simpl; [done | rewrite IH; lia]. Qed.

Lemma sum_list_with_zero {A} (f : A → nat) (l : list A) i p :
  sum_list_with f l = 0 → l !! i = Some p → f p = 0.
Proof.
  revert i. induction l as [| a l IH]; intros [| i] H0 Hi; simpl in *; try done.
  - injection Hi as ->. lia.
  - apply (IH i); [lia | done].
Qed.

(** What a step is made of. *)
Lemma step_Some i s s' :
  step i s = Some s' →
  ∃ p b' p',
    threads s !! i = Some p ∧ exec (barrier s) p = Some (b', p') ∧
    s' = {| barrier := b'; threads := <[i := p']> (threads s) |}.
Proof.
  unfold step. intros H.
  destruct (threads s !! i) as [p |] eqn:Hp; simpl in H; [| done].
  destruct (exec (barrier s) p) as [[b' p'] |] eqn:He; simpl in H; [| done].
  injection H as <-. eauto 6.
Qed.

Lemma step_length i s s' :
  step i s = Some s' → length (threads s') = length (threads s).
Proof.
  intros (p & b' & p' & _ & _ & ->)%step_Some. simpl. apply length_insert.
Qed.

Lemma step_other i j s s' :
  step i s = Some s' → i ≠ j → threads s' !! j = threads s !! j.
Proof.
  intros (p & b' & p' & _ & _ & ->)%step_Some Hne. simpl.
  by apply list_lookup_insert_ne.
Qed.

(** Induction over an interleaving, for a property kept by every step. *)
Lemma run_invariant (P : system → Prop) :
  (∀ i s s', P s → step i s = Some s' → P s') →
  ∀ sched s s', P s → run sched s = Some s' → P s'.
Proof.
  intros Hstep sched. induction sched as [| i rest IH]; intros s s' HP Hrun.
  - simpl in Hrun. by injection Hrun as <-.
  - simpl in Hrun. destruct (step i s) as [s1 |] eqn:Hs; simpl in Hrun; [| done].
    eapply IH; [| exact Hrun]. eauto.
Qed.

(** *** A context inside [panic] stays there *)

Lemma exec_panicked b p : panicked p = true → exec b p = None.
Proof. by destruct p. Qed.

Lemma panic_absorbing sched : ∀ s s' i p,
  run sched s = Some s' → threads s !! i = Some p → panicked p = true →
  threads s' !! i = Some p.
Proof.
  induction sched as [| j rest IH]; intros s s' i p Hrun Hi Hp.
  - simpl in Hrun. by injection Hrun as <-.
  - simpl in Hrun. destruct (step j s) as [s1 |] eqn:Hs; simpl in Hrun; [| done].
    apply (IH s1 s' i p Hrun); [| done].
    destruct (decide (j = i)) as [-> | Hne].
    + apply step_Some in Hs as (q & b' & q' & Hq & He & _).
      rewrite Hi in Hq. injection Hq as <-.
      by rewrite (exec_panicked _ _ Hp) in He.
    + by rewrite (step_other _ _ _ _ Hs Hne).
Qed.

(** *** The countdown invariant *)

Lemma stage_after_fetch x :
  stage (if (x <? 0)%Z then Panic "count went negative in barrier" (sync_tail x)
         else sync_tail x).
Proof.
  destruct (x <? 0)%Z; [constructor |].
  unfold sync_tail. destruct (x =? 0)%Z; constructor.
Qed.

Lemma pending_after_fetch x :
  pending (if (x <? 0)%Z then Panic "count went negative in barrier" (sync_tail x)
           else sync_tail x) = 0.
Proof.
  unfold sync_tail. by destruct (x <? 0)%Z, (x =? 0)%Z.
Qed.

Lemma countdown_inv_boot n callers : countdown_inv n (boot n callers).
Proof.
  split; simpl.
  - apply Forall_replicate. constructor.
  - unfold not_arrived. rewrite sum_list_with_replicate, length_replicate.
    simpl. f_equal. lia.
Qed.

Lemma countdown_inv_step n i s s' :
  countdown_inv n s → step i s = Some s' → countdown_inv n s'.
Proof.
  intros [Hst Hc] (p & b' & p' & Hp & He & ->)%step_Some.
  pose proof (Forall_lookup_1 _ _ _ _ Hst Hp) as Hsp.
  pose proof (sum_list_with_insert pending (threads s) i p p' Hp) as Hsum.
  unfold countdown_inv, not_arrived in *. simpl. rewrite length_insert.
  destruct Hsp; simpl in He.
  - injection He as <- <-. split.
    + apply Forall_insert; [done | apply stage_after_fetch].
    + simpl. rewrite pending_after_fetch in Hsum. simpl in Hsum.
      set (x := int32_wrap (count (barrier s) + -1)) in *.
      assert (x = int32_wrap
                    (n - Z.of_nat (length (threads s))
                     + Z.of_nat (sum_list_with pending (threads s)) + -1)) as Hx
        by (subst x; rewrite Hc; apply int32_wrap_add_l).
      clearbody x. etrans; [exact Hx |]. f_equal. lia.
  - done.
  - destruct (sem (barrier s)); [done |]. injection He as <- <-. split.
    + apply Forall_insert; [done | constructor].
    + simpl in *. rewrite Hc. f_equal. lia.
  - injection He as <- <-. split.
    + apply Forall_insert; [done | constructor].
    + simpl in *. rewrite Hc. f_equal. lia.
  - done.
Qed.

Lemma countdown_inv_run n callers sched s :
  run sched (boot n callers) = Some s → countdown_inv n s.
Proof.
  apply (run_invariant (countdown_inv n)).
  - intros i s0 s1. apply countdown_inv_step.
  - apply countdown_inv_boot.
Qed.

Lemma run_length sched s s' :
  run sched s = Some s' → length (threads s') = length (threads s).
Proof.
  apply (run_invariant (λ t, length (threads t) = length (threads s))); [| done].
  intros i s0 s1 H0 Hs. by rewrite (step_length _ _ _ Hs).
Qed.

Lemma sum_list_with_le_length {A} (f : A → nat) (l : list A) :
  (∀ a, f a ≤ 1) → sum_list_with f l ≤ length l.
Proof.
  intros Hf. induction l as [| a l IH]; simpl; [lia |].
  specialize (Hf a). lia.
Qed.

Lemma pending_le_1 p : pending p ≤ 1.
Proof. destruct p; simpl; lia. Qed.

(** *** The relay invariant, for exactly as many callers as parties *)

Lemma relay_inv_boot n callers : relay_inv (boot n callers).
Proof.
  unfold relay_inv, tokens_in_hand, returns, not_arrived. simpl.
  rewrite !sum_list_with_replicate. simpl. lia.
Qed.

Lemma relay_inv_step n i s s' :
  (0 ≤ n < 2 ^ 32)%Z → length (threads s) = Z.to_nat n →
  countdown_inv n s → relay_inv s → step i s = Some s' → relay_inv s'.
Proof.
  intros Hn Hlen [Hst Hc] [Hone Hall] (p & b' & p' & Hp & He & ->)%step_Some.
  pose proof (Forall_lookup_1 _ _ _ _ Hst Hp) as Hsp.
  pose proof (sum_list_with_insert pending (threads s) i p p' Hp) as Hpend.
  pose proof (sum_list_with_insert posting (threads s) i p p' Hp) as Hpost.
  pose proof (sum_list_with_insert returned (threads s) i p p' Hp) as Hret.
  pose proof (sum_list_with_le_length pending (threads s) pending_le_1) as Hle.
  unfold relay_inv, tokens_in_hand, returns, not_arrived in *. simpl.
  destruct Hsp; simpl in He.
  - injection He as <- <-. simpl.
    set (x := int32_wrap (count (barrier s) + -1)) in *.
    assert (x = int32_wrap (Z.of_nat (sum_list_with pending (threads s)) - 1)) as Hx.
    { subst x. rewrite Hc, int32_wrap_add_l. f_equal. lia. }
    clearbody x. rewrite pending_after_fetch in Hpend. simpl in Hpend.
    destruct (x <? 0)%Z; [simpl in *; lia |].
    unfold sync_tail in *. destruct (Z.eqb_spec x 0) as [Hx0 | Hx0]; simpl in *.
    + rewrite Hx0 in Hx. symmetry in Hx. apply int32_wrap_zero in Hx; lia.
    + lia.
  - done.
  - destruct (sem (barrier s)); [done |]. injection He as <- <-. simpl in *. lia.
  - injection He as <- <-. simpl in *. lia.
  - done.
Qed.

Lemma relay_inv_run n sched s :
  (0 ≤ n < 2 ^ 32)%Z →
  run sched (boot n (Z.to_nat n)) = Some s →
  countdown_inv n s ∧ relay_inv s.
Proof.
  intros Hn Hrun. split; [by eapply countdown_inv_run |].
  revert Hrun.
  cut (∀ s0, (length (threads s0) = Z.to_nat n ∧ countdown_inv n s0 ∧ relay_inv s0) →
             run sched s0 = Some s → relay_inv s).
  { intros Hcut. apply Hcut. split; [apply length_replicate |].
    split; [apply countdown_inv_boot | apply relay_inv_boot]. }
  intros s0 H0 Hrun.
  apply (run_invariant
           (λ t, length (threads t) = Z.to_nat n ∧ countdown_inv n t ∧ relay_inv t))
    with (sched := sched) (s' := s) in H0; [tauto | | done].
  intros i t t' (Hl & Hcd & Hr) Hs. split; [| split].
  - by rewrite (step_length _ _ _ Hs).
  - by eapply countdown_inv_step.
  - by eapply relay_inv_step.
Qed.

(** *** What one call does *)

(** C1: a call to [sync] decrements the countdown once, as one indivisible
    operation that leaves the semaphore alone.  If the decremented value is
    zero, what remains of the call is one [up], which is enabled whatever
    the semaphore holds, followed by the return.  If it is positive, what
    remains is a [down], which cannot move while the semaphore is empty and
    otherwise takes one token, then one [up], then the return. *)
Theorem sync_decrement_then_relay (b : Barrier) :
  let x := int32_wrap (count b + -1) in
  ∃ rest,
    exec b sync
      = Some ({| count := x; sem := sem b; ref_count := ref_count b |}, rest) ∧
    (x = 0%Z →
     ∀ b1, exec b1 rest
           = Some ({| count := count b1; sem := S (sem b1);
                      ref_count := ref_count b1 |}, Return)) ∧
    ((0 < x)%Z →
     ∃ woken,
       (∀ b1, sem b1 = 0 → exec b1 rest = None) ∧
       (∀ b1 t, sem b1 = S t →
                exec b1 rest
                = Some ({| count := count b1; sem := t;
                           ref_count := ref_count b1 |}, woken)) ∧
       (∀ b2, exec b2 woken
              = Some ({| count := count b2; sem := S (sem b2);
                         ref_count := ref_count b2 |}, Return))).
Proof.
  intros x. eexists. split; [reflexivity |]. fold x. split.
  - intros ->. reflexivity.
  - intros Hx. exists (SemUp Return).
    assert ((x <? 0)%Z = false) as -> by lia.
    unfold sync_tail. assert ((x =? 0)%Z = false) as -> by lia.
    split; [| split].
    + intros b1 H0. simpl. by rewrite H0.
    + intros b1 t Ht. simpl. by rewrite Ht.
    + reflexivity.
Qed.

Lemma sync_decrement_then_relay_witness :
  (∃ rest,
     exec (Barrier_new 1) sync = Some (mkBarrier 0 0 0, rest) ∧
     ∀ b1, exec b1 rest
           = Some (mkBarrier (count b1) (S (sem b1)) (ref_count b1), Return)) ∧
  (∃ rest woken,
     exec (Barrier_new 2) sync = Some (mkBarrier 1 0 0, rest) ∧
     exec (mkBarrier 1 0 0) rest = None ∧
     exec (mkBarrier 0 1 0) rest = Some (mkBarrier 0 0 0, woken) ∧
     exec (mkBarrier 0 0 0) woken = Some (mkBarrier 0 1 0, Return)).
Proof.
  split.
  - destruct (sync_decrement_then_relay (Barrier_new 1)) as (rest & He & Hz & _).
    exists rest. split; [exact He |]. apply Hz. reflexivity.
  - destruct (sync_decrement_then_relay (Barrier_new 2)) as (rest & He & _ & Hp).
    destruct Hp as (woken & Hblock & Htake & Hpost); [reflexivity |].
    exists rest, woken. split; [exact He |]. split; [| split].
    + apply Hblock. reflexivity.
    + apply (Htake (mkBarrier 0 1 0) 0). reflexivity.
    + apply (Hpost (mkBarrier 0 0 0)).
Defined.

(** *** Too many calls *)

Lemma negative_fetch_panics (s : system) (i : nat) :
  threads s !! i = Some sync →
  let x := int32_wrap (count (barrier s) + -1) in
  (x < 0)%Z →
  ∃ s',
    step i s = Some s' ∧
    count (barrier s') = x ∧
    threads s' !! i = Some (Panic panic_msg (sync_tail x)) ∧
    sem (barrier s') = sem (barrier s) ∧
    ∀ sched' s'', run sched' s' = Some s'' →
                  threads s'' !! i = Some (Panic panic_msg (sync_tail x)).
Proof.
  intros Hi x Hx.
  assert (step i s
          = Some {| barrier := {| count := x; sem := sem (barrier s);
                                  ref_count := ref_count (barrier s) |};
                    threads := <[i := Panic panic_msg (sync_tail x)]> (threads s) |})
    as Hstep.
  { unfold step. rewrite Hi. simpl. fold x.
    assert ((x <? 0)%Z = true) as -> by lia. reflexivity. }
  eexists. split; [exact Hstep |].
  assert (i < length (threads s)) as Hlt by (by eapply lookup_lt_Some).
  split; [reflexivity |]. split; [| split].
  - simpl. by apply list_lookup_insert_eq.
  - reflexivity.
  - intros sched' s'' Hrun'.
    eapply panic_absorbing; [exact Hrun' | | reflexivity].
    simpl. by apply list_lookup_insert_eq.
Qed.

(** C2: on a barrier for [n] parties called by any number of contexts in
    any interleaving, a context whose decrement yields a negative value
    enters [panic] without touching the semaphore and is never seen
    returned (or anywhere else) afterwards; and once [n + k] calls have
    decremented the countdown ([0 <= k < 2^31]) the next decrement is
    negative.  With [n = 3] and three earlier calls this is the 4th call. *)
Theorem sync_overcall_panics (n : Z) (callers : nat) (sched : list nat)
    (s : system) (i : nat) :
  run sched (boot n callers) = Some s →
  threads s !! i = Some sync →
  let x := int32_wrap (count (barrier s) + -1) in
  ((n ≤ Z.of_nat (arrived (threads s)) < n + 2 ^ 31)%Z → (x < 0)%Z) ∧
  ((x < 0)%Z →
   ∃ s',
     step i s = Some s' ∧
     threads s' !! i = Some (Panic panic_msg (sync_tail x)) ∧
     sem (barrier s') = sem (barrier s) ∧
     ∀ sched' s'', run sched' s' = Some s'' →
                   threads s'' !! i = Some (Panic panic_msg (sync_tail x))).
Proof.
  intros Hrun Hi x. split.
  - intros Hk. destruct (countdown_inv_run _ _ _ _ Hrun) as [_ Hc].
    pose proof (sum_list_with_le_length pending (threads s) pending_le_1) as Hle.
    subst x. rewrite Hc, int32_wrap_add_l.
    unfold arrived, not_arrived in *.
    rewrite int32_wrap_small; lia.
  - intros Hx.
    destruct (negative_fetch_panics s i Hi Hx) as (s' & Hstep & _ & Hat & Hsem & Hstay).
    exists s'. done.
Qed.

Lemma sync_overcall_panics_witness :
  ∃ s s',
    run [0; 1; 2] (boot 3 4) = Some s ∧
    threads s !! 3 = Some sync ∧
    arrived (threads s) = 3 ∧
    step 3 s = Some s' ∧
    threads s' !! 3 = Some (Panic panic_msg (sync_tail (-1))) ∧
    ∀ sched' s'', run sched' s' = Some s'' →
                  threads s'' !! 3 = Some (Panic panic_msg (sync_tail (-1))).
Proof.
  eexists.
  destruct (sync_overcall_panics 3 4 [0; 1; 2] _ 3 eq_refl eq_refl) as [Hneg Hpanic].
  destruct Hpanic as (s' & Hstep & Hat & _ & Hstay).
  { apply Hneg. vm_compute. split; [discriminate | reflexivity]. }
  exists s'. split; [reflexivity |]. split; [reflexivity |].
  split; [reflexivity |]. split; [exact Hstep |]. split; [exact Hat | exact Hstay].
Defined.

(** C9: the constructor builds a barrier for party count zero like any
    other (its countdown is zero), and on that barrier the first call made
    by any context decrements the countdown to -1 and stays in [panic]. *)
Theorem zero_party_barrier_panics (callers i : nat) :
  i < callers →
  Barrier_new 0 = {| count := 0; sem := 0; ref_count := 0 |} ∧
  ∃ s',
    step i (boot 0 callers) = Some s' ∧
    count (barrier s') = (-1)%Z ∧
    threads s' !! i = Some (Panic panic_msg (sync_tail (-1))) ∧
    ∀ sched s'', run sched s' = Some s'' →
                 threads s'' !! i = Some (Panic panic_msg (sync_tail (-1))).
Proof.
  intros Hi. split; [reflexivity |].
  assert (threads (boot 0 callers) !! i = Some sync) as Hsync.
  { simpl. by apply lookup_replicate_2. }
  destruct (negative_fetch_panics (boot 0 callers) i Hsync)
    as (s' & Hstep & Hc & Hat & _ & Hstay); [reflexivity |].
  exists s'. done.
Qed.

Lemma zero_party_barrier_panics_witness :
  ∃ s',
    step 0 (boot 0 1) = Some s' ∧
    count (barrier s') = (-1)%Z ∧
    threads s' !! 0 = Some (Panic panic_msg (sync_tail (-1))).
Proof.
  destruct (zero_party_barrier_panics 1 0) as [_ (s' & Hstep & Hc & Hat & _)];
    [lia |].
  exists s'. split; [exact Hstep |]. split; [exact Hc | exact Hat].
Defined.

(** *** The rendezvous *)

Lemma sum_list_with_lookup_le {A} (f : A → nat) (l : list A) i p :
  l !! i = Some p → f p ≤ sum_list_with f l.
Proof.
  revert i. induction l as [| a l IH]; intros [| i] Hi; simpl in *; try done.
  - injection Hi as ->. lia.
  - specialize (IH i Hi). lia.
Qed.

(** C3: on a barrier for [n] parties called by exactly [n] contexts, in
    every interleaving and at every point of it, the tokens in the
    semaphore and the tokens in the hands of contexts about to post add up
    to at most one; and whenever some context has returned, or is past its
    wait and about to post, every one of the [n] calls has decremented the
    countdown (no context is still at the start of [sync]). *)
Theorem rendezvous_single_token (n : Z) (sched : list nat) (s : system) :
  (0 ≤ n < 2 ^ 32)%Z →
  run sched (boot n (Z.to_nat n)) = Some s →
  sem (barrier s) + tokens_in_hand (threads s) ≤ 1 ∧
  ∀ i p, threads s !! i = Some p → p = Return ∨ p = SemUp Return →
         arrived (threads s) = Z.to_nat n ∧ ∀ j, threads s !! j ≠ Some sync.
Proof.
  intros Hn Hrun.
  destruct (relay_inv_run n sched s Hn Hrun) as [_ [Hone Hall]].
  split; [exact Hone |]. intros i p Hi Hp.
  assert (not_arrived (threads s) = 0) as Hzero.
  { apply Hall. unfold tokens_in_hand, returns.
    pose proof (sum_list_with_lookup_le posting _ _ _ Hi).
    pose proof (sum_list_with_lookup_le returned _ _ _ Hi).
    destruct Hp as [-> | ->]; simpl in *; lia. }
  split.
  - unfold arrived. rewrite Hzero, (run_length _ _ _ Hrun). simpl.
    rewrite length_replicate. lia.
  - intros j Hj.
    by pose proof (sum_list_with_zero pending _ _ _ Hzero Hj).
Qed.

Lemma rendezvous_single_token_witness :
  let s := {| barrier := mkBarrier 0 1 0; threads := [Return; Return; Return] |} in
  run [0; 1; 2; 2; 0; 0; 1; 1] (boot 3 3) = Some s ∧
  sem (barrier s) + tokens_in_hand (threads s) ≤ 1 ∧
  arrived (threads s) = 3.
Proof.
  intros s.
  assert (run [0; 1; 2; 2; 0; 0; 1; 1] (boot 3 (Z.to_nat 3)) = Some s) as Hrun
    by (vm_compute; reflexivity).
  split; [exact Hrun |].
  destruct (rendezvous_single_token 3 [0; 1; 2; 2; 0; 0; 1; 1] s
              ltac:(lia) Hrun) as [Hone Hall].
  split; [exact Hone |].
  exact (proj1 (Hall 0 Return eq_refl (or_introl eq_refl))).
Defined.

End BarrierFacts.

(** ** Properties of the VGA declarations *)

Module VGAFacts.
Import VGA.
Local Open Scope Z_scope.

(** *** The palette *)

(** The colour cube: two bits per channel, red the most significant. *)
Lemma palette_cube_all :
  Forall (λ i : nat,
            paletteRGB i
            = (0x55 * Z.of_nat (i / 16), 0x55 * Z.of_nat ((i / 4) mod 4),
               0x55 * Z.of_nat (i mod 4)))
         (seq 0 64).
Proof. apply (bool_decide_unpack _). by vm_compute. Qed.

Lemma palette_entries_NoDup : NoDup palette_entries.
Proof. apply (bool_decide_unpack _). by vm_compute. Qed.

Lemma palette_entries_lookup (i : nat) :
  (i < 64)%nat → palette_entries !! i = Some (paletteRGB i).
Proof.
  intros Hi. unfold palette_entries.
  rewrite list_lookup_fmap, lookup_seq_lt by done. reflexivity.
Qed.

Lemma paletteRGB_inj (i j : nat) :
  (i < 64)%nat → (j < 64)%nat → paletteRGB i = paletteRGB j → i = j.
Proof.
  intros Hi Hj Heq.
  apply (NoDup_lookup palette_entries i j (paletteRGB i) palette_entries_NoDup).
  - by apply palette_entries_lookup.
  - rewrite Heq. by apply palette_entries_lookup.
Qed.

(** C7: the palette array has 192 bytes, which read three at a time are
    exactly 64 RGB triples in order, and the triple at index 0 is black. *)
Theorem palette_shape :
  length palette = 192%nat ∧
  length palette_entries = 64%nat ∧
  flat_map (λ c : rgb, let '(r, g, b) := c in [r; g; b]) palette_entries = palette ∧
  paletteRGB 0 = (0, 0, 0).
Proof. repeat split. Qed.

(** C10: palette entry [i] is the point of the 4x4x4 colour cube with red
    level [i div 16], green level [(i div 4) mod 4] and blue level
    [i mod 4], each level scaled by 0x55; two different indices never name
    the same colour. *)
Theorem palette_is_rgb_cube (i j : nat) :
  (i < 64)%nat → (j < 64)%nat →
  paletteRGB i
  = (0x55 * Z.of_nat (i / 16), 0x55 * Z.of_nat ((i / 4) mod 4),
     0x55 * Z.of_nat (i mod 4)) ∧
  (i ≠ j → paletteRGB i ≠ paletteRGB j).
Proof.
  intros Hi Hj. split.
  - pose proof palette_cube_all as Hall.
    rewrite Forall_forall in Hall. apply Hall.
    apply elem_of_seq. lia.
  - intros Hne Heq. apply Hne. by apply paletteRGB_inj.
Qed.

Lemma palette_is_rgb_cube_witness :
  paletteRGB 27 = (0x55, 0xAA, 0xFF) ∧ paletteRGB 27 ≠ paletteRGB 30.
Proof.
  destruct (palette_is_rgb_cube 27 30) as [Hcube Hne]; [lia | lia |].
  split; [exact Hcube |]. apply Hne. lia.
Defined.

(** *** Nearest palette colour *)

Section NearestFacts.

Variable dist : rgb → rgb → Z.

Lemma nearest_least c n : ∀ i best,
  least_nearest dist c i best →
  least_nearest dist c (i + n)
    (nearest dist c n i best (dist c (paletteRGB best))).
Proof.
  induction n as [| n IH]; intros i best [Hlt Hmin]; simpl.
  - rewrite Nat.add_0_r. by split.
  - replace (i + S n)%nat with (S i + n)%nat by lia.
    destruct (Z.ltb_spec (dist c (paletteRGB i)) (dist c (paletteRGB best)))
      as [Hnew | Hold].
    + apply IH. split; [lia |]. intros j Hj.
      destruct (decide (j = i)) as [-> | Hne]; [split; [lia | done] |].
      destruct (Hmin j ltac:(lia)) as [Hle _]. lia.
    + apply IH. split; [lia |]. intros j Hj.
      destruct (decide (j = i)) as [-> | Hne]; [split; [lia | lia] |].
      apply Hmin. lia.
Qed.

Lemma getColor_least r g b :
  ∃ k : nat, getColor dist r g b = Z.of_nat k ∧ least_nearest dist (r, g, b) 64 k.
Proof.
  eexists. split; [reflexivity |].
  apply (nearest_least (r, g, b) 63 1 0). split; [lia |].
  intros j Hj. assert (j = 0%nat) as -> by lia. split; [lia | done].
Qed.

End NearestFacts.

(** C4: for any distance that is zero between equal colours and positive
    between different ones, [getColor] gives equal results on equal
    arguments, maps the colour of every palette entry back to that entry's
    index, and in general returns an index below 64 whose entry is at least
    as near as every other entry and is the lowest index among the entries
    equally near. *)
Theorem getColor_round_trip (dist : rgb → rgb → Z) :
  (∀ c, dist c c = 0) →
  (∀ c c', c ≠ c' → 0 < dist c c') →
  (∀ r g b r' g' b',
     (r, g, b) = (r', g', b') → getColor dist r g b = getColor dist r' g' b') ∧
  (∀ i : nat, (i < 64)%nat →
     let '(r, g, b) := paletteRGB i in getColor dist r g b = Z.of_nat i) ∧
  (∀ r g b (j : nat), (j < 64)%nat →
     let k := Z.to_nat (getColor dist r g b) in
     0 ≤ getColor dist r g b < 64 ∧
     dist (r, g, b) (paletteRGB k) ≤ dist (r, g, b) (paletteRGB j) ∧
     (dist (r, g, b) (paletteRGB j) = dist (r, g, b) (paletteRGB k) → (k ≤ j)%nat)).
Proof.
  intros Hrefl Hpos. split; [| split].
  - intros r g b r' g' b' [= -> -> ->]. reflexivity.
  - intros i Hi. destruct (paletteRGB i) as [[r g] b] eqn:Hc.
    destruct (getColor_least dist r g b) as (k & -> & Hk & Hmin).
    f_equal. apply paletteRGB_inj; [done | done |].
    destruct (Hmin i Hi) as [Hle _]. rewrite Hc, Hrefl in Hle.
    destruct (decide (paletteRGB k = paletteRGB i)) as [Heq | Hne]; [done |].
    rewrite Hc in Hne. specialize (Hpos (r, g, b) (paletteRGB k)).
    assert (0 < dist (r, g, b) (paletteRGB k)) by (apply Hpos; congruence).
    lia.
  - intros r g b j Hj k. subst k.
    destruct (getColor_least dist r g b) as (k & -> & Hk & Hmin).
    rewrite Nat2Z.id. split; [lia |]. apply Hmin, Hj.
Qed.

Lemma sq_dist_refl c : sq_dist c c = 0.
Proof. destruct c as [[r g] b]. unfold sq_dist. lia. Qed.

Lemma sq_dist_pos c c' : c ≠ c' → 0 < sq_dist c c'.
Proof.
  destruct c as [[r g] b], c' as [[r' g'] b']. unfold sq_dist. intros Hne.
  assert (∀ x, x ≠ 0 → 0 < x * x) as Hsq by (intros x Hx; nia).
  pose proof (Z.square_nonneg (r - r')) as Hr.
  pose proof (Z.square_nonneg (g - g')) as Hg.
  pose proof (Z.square_nonneg (b - b')) as Hb.
  destruct (decide (r = r')) as [-> | Hr'].
  - destruct (decide (g = g')) as [-> | Hg'].
    + destruct (decide (b = b')) as [-> | Hb']; [done |].
      specialize (Hsq (b - b') ltac:(lia)). lia.
    + specialize (Hsq (g - g') ltac:(lia)). lia.
  - specialize (Hsq (r - r') ltac:(lia)). lia.
Qed.

Lemma getColor_round_trip_witness :
  getColor sq_dist 0x55 0xAA 0xFF = 27 ∧
  0 ≤ getColor sq_dist 0x80 0x80 0x80 < 64 ∧
  sq_dist (0x80, 0x80, 0x80)
          (paletteRGB (Z.to_nat (getColor sq_dist 0x80 0x80 0x80)))
  ≤ sq_dist (0x80, 0x80, 0x80) (paletteRGB 21).
Proof.
  destruct (getColor_round_trip sq_dist sq_dist_refl sq_dist_pos)
    as (_ & Hround & Hnear).
  split; [exact (Hround 27%nat ltac:(lia)) |].
  destruct (Hnear 0x80 0x80 0x80 21%nat ltac:(lia)) as (Hrange & Hle & _).
  split; [exact Hrange | exact Hle].
Defined.

(** *** The indexed register groups *)

(** C8: for each of the four indexed register groups the data port is the
    index port plus one (0x3C4/0x3C5, 0x3CE/0x3CF, 0x3D4/0x3D5,
    0x3B4/0x3B5), and an indexed write appends to the log of port writes
    the index byte at the index port and, after it, the data byte at the
    data port, leaving the earlier writes as they were. *)
Theorem indexed_write_index_then_data (g : reg_group) (index value : Z)
    (log : list outb) :
  data_port g = index_port g + 1 ∧
  (index_port Sequencer, data_port Sequencer) = (0x3C4, 0x3C5) ∧
  (index_port GraphicsController, data_port GraphicsController) = (0x3CE, 0x3CF) ∧
  (index_port CRTController_color, data_port CRTController_color) = (0x3D4, 0x3D5) ∧
  (index_port CRTController_mono, data_port CRTController_mono) = (0x3B4, 0x3B5) ∧
  indexed_write g index value log
  = log ++ [mkOut (index_port g) index; mkOut (data_port g) value] ∧
  indexed_write g index value log !! length log = Some (mkOut (index_port g) index) ∧
  indexed_write g index value log !! S (length log)
  = Some (mkOut (data_port g) value).
Proof.
  assert (data_port g = index_port g + 1) as Hpair by (by destruct g).
  split; [exact Hpair |]. do 4 (split; [reflexivity |]).
  unfold indexed_write. rewrite <- Hpair. split; [reflexivity |]. split.
  - rewrite lookup_app_r by lia. by rewrite Nat.sub_diag.
  - rewrite lookup_app_r by lia.
    replace (S (length log) - length log)%nat with 1%nat by lia. reflexivity.
Qed.

(** *** The members shared between execution contexts *)

Lemma flags_not_atomic_words :
  ¬ (member_discipline "playing" = Some AtomicWord ∧
     member_discipline "new_song" = Some AtomicWord ∧
     member_discipline "playing" = member_discipline "elapsed_time" ∧
     member_discipline "new_song" = member_discipline "elapsed_time").
Proof. intros (H & _). discriminate H. Qed.

(** C5, as the header has it: [playing] and [new_song] are declared
    [volatile bool], initialised to 0 and 1, and are accessed as ordinary
    objects; of the three members only the elapsed-time counter is an
    [Atomic<uint32_t>] word (initialised to 0), so the flags do not follow
    the counter's discipline. *)
Theorem flags_volatile_counter_atomic :
  member_type "playing" = Some (TVolatile TBool) ∧
  member_type "new_song" = Some (TVolatile TBool) ∧
  member_type "elapsed_time" = Some (TAtomic TUInt32) ∧
  member_init "playing" = Some 0 ∧
  member_init "new_song" = Some 1 ∧
  member_init "elapsed_time" = Some 0 ∧
  member_discipline "playing" = Some PlainField ∧
  member_discipline "new_song" = Some PlainField ∧
  member_discipline "elapsed_time" = Some AtomicWord.
Proof. repeat split. Qed.

(** *** The playback coordinator *)

Lemma play_pause_keeps_file_and_time {File_Node : Type} (v : playback File_Node) :
  curr (play_pause v) = curr v ∧ elapsed_time (play_pause v) = elapsed_time v.
Proof. unfold play_pause. destruct (curr v) eqn:Hc; simpl; by rewrite ?Hc. Qed.

Lemma playingSong_not_playing {File_Node : Type} (d : Z) (v : playback File_Node) :
  state_of v ≠ Playing → playingSong d v = v.
Proof. unfold playingSong. by destruct (state_of v). Qed.

(** C6: after [spotify(file, true)] and two ticks of 500 the elapsed time
    is 1000 and the state is Playing; after a following [play_pause()] and
    another tick of 500 the elapsed time is still 1000, the state is Paused
    and the loaded file is the same. *)
Theorem spotify_ticks_then_pause {File_Node : Type} (file : File_Node)
    (v0 : playback File_Node) :
  let v2 := playingSong 500 (playingSong 500 (spotify (Some file) true v0)) in
  let v4 := playingSong 500 (play_pause v2) in
  elapsed_time v2 = 1000 ∧ state_of v2 = Playing ∧
  elapsed_time v4 = 1000 ∧ state_of v4 = Paused ∧
  curr v4 = curr v2 ∧ curr v4 = Some file.
Proof. repeat split. Qed.

End VGAFacts.


(** ** Runs of the barrier: termination, progress, starvation *)

Module BarrierLiveness.
Import Int IntFacts Barrier BarrierFacts BarrierRuns.

Lemma sum_list_with_pos {A} (f : A → nat) (l : list A) :
  0 < sum_list_with f l → ∃ i p, l !! i = Some p ∧ 0 < f p.
Proof.
  induction l as [| a l IH]; simpl; [lia |]. intros Hpos.
  destruct (decide (0 < f a)) as [Ha | Ha].
  - by exists 0, a.
  - destruct IH as (i & p & Hi & Hp); [lia |]. by exists (S i), p.
Qed.

(** Every context is in exactly one of the five classes. *)
Lemma stage_partition (l : list prog) :
  Forall stage l →
  not_arrived l + waiters l + tokens_in_hand l + returns l + panics l = length l.
Proof.
  unfold not_arrived, waiters, tokens_in_hand, returns, panics.
  induction 1 as [| p l Hp _ IH]; simpl; [done |].
  destruct Hp; simpl; lia.
Qed.

Lemma step_enabled i s p b' p' :
  threads s !! i = Some p → exec (barrier s) p = Some (b', p') →
  step i s = Some {| barrier := b'; threads := <[i := p']> (threads s) |}.
Proof. intros Hi He. unfold step. rewrite Hi. simpl. by rewrite He. Qed.

Lemma run_app sched1 sched2 s s1 :
  run sched1 s = Some s1 → run (sched1 ++ sched2) s = run sched2 s1.
Proof.
  revert s. induction sched1 as [| i rest IH]; intros s Hrun; simpl in *.
  - by injection Hrun as ->.
  - destruct (step i s) as [s' |]; simpl in *; [by apply IH | done].
Qed.

(** *** Every operation uses up work *)

Lemma steps_left_after_fetch x :
  steps_left (if (x <? 0)%Z then Panic "count went negative in barrier" (sync_tail x)
              else sync_tail x) ≤ 2.
Proof.
  unfold sync_tail. destruct (x <? 0)%Z, (x =? 0)%Z; simpl; lia.
Qed.

Lemma work_step i s s' :
  Forall stage (threads s) → step i s = Some s' →
  work (threads s') + 1 ≤ work (threads s).
Proof.
  intros Hst (p & b' & p' & Hp & He & ->)%step_Some.
  pose proof (Forall_lookup_1 _ _ _ _ Hst Hp) as Hsp.
  pose proof (sum_list_with_insert steps_left (threads s) i p p' Hp) as Hsum.
  unfold work. simpl. destruct Hsp; simpl in He.
  - injection He as <- <-.
    pose proof (steps_left_after_fetch (int32_wrap (count (barrier s) + -1))).
    simpl in Hsum. lia.
  - done.
  - destruct (sem (barrier s)); [done |]. injection He as <- <-. simpl in *. lia.
  - injection He as <- <-. simpl in *. lia.
  - done.
Qed.

Lemma work_run n sched : ∀ s s',
  countdown_inv n s → run sched s = Some s' →
  length sched + work (threads s') ≤ work (threads s).
Proof.
  induction sched as [| i rest IH]; intros s s' Hinv Hrun; simpl in *.
  - injection Hrun as <-. lia.
  - destruct (step i s) as [s1 |] eqn:Hs; simpl in Hrun; [| done].
    pose proof (work_step i s s1 (proj1 Hinv) Hs).
    pose proof (IH s1 s' (countdown_inv_step _ _ _ _ Hinv Hs) Hrun). lia.
Qed.

(** X1: on a barrier of any party count called by any number of contexts,
    an interleaving that has run to a state [s] has performed at most three
    operations per caller, less the operations the contexts of [s] can still
    perform: no call loops. *)
Theorem sync_runs_are_bounded (n : Z) (callers : nat) (sched : list nat)
    (s : system) :
  run sched (boot n callers) = Some s →
  length sched + work (threads s) ≤ 3 * callers.
Proof.
  intros Hrun.
  pose proof (work_run n sched _ _ (countdown_inv_boot n callers) Hrun) as Hw.
  unfold work in Hw at 2. simpl in Hw.
  rewrite sum_list_with_replicate in Hw. simpl in Hw. lia.
Qed.

Lemma sync_runs_are_bounded_witness :
  let s := {| barrier := mkBarrier 0 0 0;
              threads := [SemDown (SemUp Return); SemUp Return] |} in
  run [0; 1] (boot 2 2) = Some s ∧ 2 + work (threads s) ≤ 3 * 2.
Proof.
  intros s.
  assert (run [0; 1] (boot 2 2) = Some s) as Hrun by (vm_compute; reflexivity).
  split; [exact Hrun |]. exact (sync_runs_are_bounded 2 2 [0; 1] s Hrun).
Defined.

(** *** As many callers as parties *)

Lemma live_inv_boot n callers : live_inv (boot n callers).
Proof.
  unfold live_inv, panics, not_arrived, tokens_in_hand. simpl.
  rewrite !sum_list_with_replicate. simpl. split; [lia |].
  intros H0 Hne. destruct callers; [done | lia].
Qed.

Lemma live_inv_step n i s s' :
  (0 ≤ n < 2 ^ 31)%Z → length (threads s) = Z.to_nat n →
  countdown_inv n s → relay_inv s → live_inv s → step i s = Some s' →
  live_inv s'.
Proof.
  intros Hn Hlen [Hst Hc] [Hone Hall] [Hdead Htok]
    (p & b' & p' & Hp & He & ->)%step_Some.
  pose proof (Forall_lookup_1 _ _ _ _ Hst Hp) as Hsp.
  pose proof (sum_list_with_insert pending (threads s) i p p' Hp) as Hpend.
  pose proof (sum_list_with_insert posting (threads s) i p p' Hp) as Hpost.
  pose proof (sum_list_with_insert dead (threads s) i p p' Hp) as Hdd.
  pose proof (sum_list_with_le_length pending (threads s) pending_le_1) as Hle.
  assert (threads s ≠ []) as Hne by (intros Hnil; by rewrite Hnil in Hp).
  unfold live_inv, panics, tokens_in_hand, returns, not_arrived in *. simpl.
  destruct Hsp; simpl in He.
  - injection He as <- <-. simpl.
    set (x := int32_wrap (count (barrier s) + -1)) in *.
    assert (x = (Z.of_nat (sum_list_with pending (threads s)) - 1)%Z) as Hx.
    { subst x. rewrite Hc, int32_wrap_add_l.
      simpl in Hpend. rewrite int32_wrap_small; lia. }
    clearbody x. rewrite pending_after_fetch in Hpend. simpl in Hpend.
    destruct (Z.ltb_spec x 0) as [Hneg | _]; [lia |].
    unfold sync_tail in *. destruct (Z.eqb_spec x 0) as [Hx0 | Hx0]; simpl in *.
    + split; [lia |]. intros _ _. lia.
    + split; [lia |]. intros H0. lia.
  - done.
  - destruct (sem (barrier s)) eqn:Hsem; [done |]. injection He as <- <-.
    simpl in *. split; [lia |]. intros H0 _. specialize (Htok ltac:(lia) Hne). lia.
  - injection He as <- <-.
    simpl in *. split; [lia |]. intros H0 _. specialize (Htok ltac:(lia) Hne). lia.
  - done.
Qed.

Lemma live_inv_run n sched s :
  (0 ≤ n < 2 ^ 31)%Z →
  run sched (boot n (Z.to_nat n)) = Some s →
  length (threads s) = Z.to_nat n ∧ countdown_inv n s ∧ relay_inv s ∧ live_inv s.
Proof.
  intros Hn Hrun.
  apply (run_invariant
           (λ t, length (threads t) = Z.to_nat n ∧ countdown_inv n t ∧
                 relay_inv t ∧ live_inv t))
    with (sched := sched) (s := boot n (Z.to_nat n)); [| | done].
  - intros i t t' (Hl & Hcd & Hr & Hlive) Hs. split; [| split; [| split]].
    + by rewrite (step_length _ _ _ Hs).
    + by eapply countdown_inv_step.
    + eapply relay_inv_step; [| done | done | done | done]. lia.
    + by eapply live_inv_step.
  - split; [apply length_replicate |]. split; [apply countdown_inv_boot |].
    split; [apply relay_inv_boot | apply live_inv_boot].
Qed.

Lemma rendezvous_progress (n : Z) (sched : list nat) (s : system) :
  (0 ≤ n < 2 ^ 31)%Z →
  run sched (boot n (Z.to_nat n)) = Some s →
  all_returned s ∨ ∃ i s', step i s = Some s'.
Proof.
  intros Hn Hrun.
  destruct (live_inv_run n sched s Hn Hrun) as (Hlen & [Hst Hc] & _ & [Hdead Htok]).
  pose proof (stage_partition _ Hst) as Hpart.
  destruct (decide (returns (threads s) = length (threads s))) as [Hall | Hnot];
    [by left | right].
  destruct (decide (0 < not_arrived (threads s))) as [Hpend | Hpend].
  { destruct (sum_list_with_pos pending _ Hpend) as (i & p & Hi & Hp).
    destruct p; simpl in Hp; try lia.
    exists i. eexists. by eapply step_enabled. }
  destruct (decide (0 < tokens_in_hand (threads s))) as [Hpost | Hpost].
  { destruct (sum_list_with_pos posting _ Hpost) as (i & p & Hi & Hp).
    destruct p; simpl in Hp; try lia.
    exists i. eexists. by eapply step_enabled. }
  assert (0 < waiters (threads s)) as Hwait by lia.
  destruct (sum_list_with_pos waiting _ Hwait) as (i & p & Hi & Hp).
  destruct p; simpl in Hp; try lia.
  assert (threads s ≠ []) as Hne by (intros Hnil; by rewrite Hnil in Hi).
  specialize (Htok ltac:(lia) Hne).
  destruct (sem (barrier s)) as [| t] eqn:Hsem; [lia |].
  exists i. eexists. eapply step_enabled; [exact Hi |]. simpl. by rewrite Hsem.
Qed.

(** X2: on a barrier for [n] parties ([n] below 2^31) called by exactly
    [n] contexts, at every point of every interleaving no context is inside
    [panic], and either every call has returned or some context can perform
    its next operation: the rendezvous never deadlocks. *)
Theorem rendezvous_never_deadlocks (n : Z) (sched : list nat) (s : system) :
  (0 ≤ n < 2 ^ 31)%Z →
  run sched (boot n (Z.to_nat n)) = Some s →
  panics (threads s) = 0 ∧
  (all_returned s ∨ ∃ i s', step i s = Some s').
Proof.
  intros Hn Hrun. split.
  - by destruct (live_inv_run n sched s Hn Hrun) as (_ & _ & _ & [Hdead _]).
  - by apply (rendezvous_progress n sched).
Qed.

Lemma rendezvous_never_deadlocks_witness :
  let s := {| barrier := mkBarrier 0 0 0;
              threads := [SemDown (SemUp Return); SemUp Return] |} in
  run [0; 1] (boot 2 2) = Some s ∧
  panics (threads s) = 0 ∧
  (all_returned s ∨ ∃ i s', step i s = Some s').
Proof.
  intros s.
  assert (run [0; 1] (boot 2 (Z.to_nat 2)) = Some s) as Hrun
    by (vm_compute; reflexivity).
  split; [exact Hrun |].
  exact (rendezvous_never_deadlocks 2 [0; 1] s ltac:(lia) Hrun).
Defined.

(** X3: on a barrier for [n >= 1] parties ([n] below 2^31) called by
    exactly [n] contexts, whenever every call has returned the countdown is
    zero and the semaphore holds exactly one token (the relay token is left
    behind). *)
Theorem rendezvous_leaves_one_token (n : Z) (sched : list nat) (s : system) :
  (1 ≤ n < 2 ^ 31)%Z →
  run sched (boot n (Z.to_nat n)) = Some s →
  all_returned s →
  count (barrier s) = 0%Z ∧ sem (barrier s) = 1.
Proof.
  intros Hn Hrun Hall.
  destruct (live_inv_run n sched s ltac:(lia) Hrun)
    as (Hlen & [Hst Hc] & _ & [Hdead Htok]).
  pose proof (stage_partition _ Hst) as Hpart. unfold all_returned in Hall.
  assert (threads s ≠ []) as Hne.
  { intros Hnil. rewrite Hnil in Hlen. simpl in Hlen. lia. }
  specialize (Htok ltac:(lia) Hne). split; [| lia].
  rewrite Hc. replace (not_arrived (threads s)) with 0 by lia.
  rewrite Hlen, Z2Nat.id by lia. rewrite int32_wrap_small; lia.
Qed.

Lemma rendezvous_leaves_one_token_witness :
  let s := {| barrier := mkBarrier 0 1 0; threads := [Return; Return; Return] |} in
  run [0; 1; 2; 2; 0; 0; 1; 1] (boot 3 3) = Some s ∧
  count (barrier s) = 0%Z ∧ sem (barrier s) = 1.
Proof.
  intros s.
  assert (run [0; 1; 2; 2; 0; 0; 1; 1] (boot 3 (Z.to_nat 3)) = Some s) as Hrun
    by (vm_compute; reflexivity).
  split; [exact Hrun |].
  exact (rendezvous_leaves_one_token 3 _ s ltac:(lia) Hrun eq_refl).
Defined.

Lemma rendezvous_completion_aux n w : ∀ sched s,
  (0 ≤ n < 2 ^ 31)%Z →
  run sched (boot n (Z.to_nat n)) = Some s →
  work (threads s) ≤ w →
  ∃ sched' s',
    length sched' ≤ w ∧
    run (sched ++ sched') (boot n (Z.to_nat n)) = Some s' ∧ all_returned s'.
Proof.
  induction w as [| w IH]; intros sched s Hn Hrun Hw.
  - destruct (rendezvous_progress n sched s Hn Hrun) as [Hall | (i & s1 & Hs)].
    + exists [], s. rewrite app_nil_r. done.
    + pose proof (work_step i s s1 (proj1 (countdown_inv_run _ _ _ _ Hrun)) Hs). lia.
  - destruct (rendezvous_progress n sched s Hn Hrun) as [Hall | (i & s1 & Hs)].
    + exists [], s. rewrite app_nil_r. simpl. split; [lia | done].
    + pose proof (work_step i s s1 (proj1 (countdown_inv_run _ _ _ _ Hrun)) Hs).
      assert (run (sched ++ [i]) (boot n (Z.to_nat n)) = Some s1) as Hrun1.
      { rewrite (run_app _ _ _ _ Hrun). simpl. by rewrite Hs. }
      destruct (IH (sched ++ [i]) s1 Hn Hrun1 ltac:(lia)) as (sched' & s' & Hl & Hr & Hall).
      exists (i :: sched'), s'. simpl. split; [lia |].
      rewrite <- app_assoc in Hr. done.
Qed.

(** X4: on a barrier for [n] parties ([n] below 2^31) called by exactly
    [n] contexts, every interleaving can be continued, by no more
    operations than its contexts have left, to a point where all [n] calls
    have returned. *)
Theorem rendezvous_can_complete (n : Z) (sched : list nat) (s : system) :
  (0 ≤ n < 2 ^ 31)%Z →
  run sched (boot n (Z.to_nat n)) = Some s →
  ∃ sched' s',
    length sched' ≤ work (threads s) ∧
    run (sched ++ sched') (boot n (Z.to_nat n)) = Some s' ∧ all_returned s'.
Proof.
  intros Hn Hrun. by apply (rendezvous_completion_aux n (work (threads s)) sched s).
Qed.

Lemma rendezvous_can_complete_witness :
  ∃ sched' s',
    length sched' ≤ 3 ∧
    run ([0; 1] ++ sched') (boot 2 2) = Some s' ∧ all_returned s'.
Proof.
  exact (rendezvous_can_complete 2 [0; 1]
           {| barrier := mkBarrier 0 0 0;
              threads := [SemDown (SemUp Return); SemUp Return] |}
           ltac:(lia) ltac:(vm_compute; reflexivity)).
Defined.

(** *** Fewer callers than parties *)

Lemma starved_inv_boot n callers : starved_inv (boot n callers).
Proof.
  split; [done |]. simpl. apply Forall_replicate. by left.
Qed.

Lemma starved_inv_step n i s s' :
  (Z.of_nat (length (threads s)) < n < 2 ^ 31)%Z →
  countdown_inv n s → starved_inv s → step i s = Some s' → starved_inv s'.
Proof.
  intros Hn [Hst Hc] [Hsem Hform] (p & b' & p' & Hp & He & ->)%step_Some.
  pose proof (Forall_lookup_1 _ _ _ _ Hform Hp) as Hsp.
  pose proof (sum_list_with_insert pending (threads s) i p p' Hp) as Hpend.
  pose proof (sum_list_with_le_length pending (threads s) pending_le_1) as Hle.
  pose proof (sum_list_with_lookup_le pending _ _ _ Hp) as Hge.
  unfold starved_inv, not_arrived in *. simpl.
  destruct Hsp as [-> | ->]; simpl in He, Hge.
  - injection He as <- <-. simpl. split; [done |].
    apply Forall_insert; [done |].
    set (x := int32_wrap (count (barrier s) + -1)) in *.
    assert (x = (n - Z.of_nat (length (threads s))
                 + Z.of_nat (sum_list_with pending (threads s)) - 1)%Z) as Hx.
    { subst x. rewrite Hc, int32_wrap_add_l.
      simpl in Hpend. rewrite int32_wrap_small; lia. }
    clearbody x. simpl in Hpend.
    destruct (Z.ltb_spec x 0) as [Hneg | _]; [lia |].
    unfold sync_tail. destruct (Z.eqb_spec x 0) as [Hx0 | _]; [lia | by right].
  - by rewrite Hsem in He.
Qed.

(** X5: on a barrier for [n] parties ([n] below 2^31) called by fewer
    than [n] contexts, at every point of every interleaving the semaphore
    is empty, every context is either before its decrement or at its
    [down], and a context that has made its decrement cannot move: no call
    ever returns. *)
Theorem missing_party_blocks_all (n : Z) (callers : nat) (sched : list nat)
    (s : system) :
  (Z.of_nat callers < n < 2 ^ 31)%Z →
  run sched (boot n callers) = Some s →
  sem (barrier s) = 0 ∧
  returns (threads s) = 0 ∧
  (∀ i p, threads s !! i = Some p → p = sync ∨ p = SemDown (SemUp Return)) ∧
  (∀ i, threads s !! i ≠ Some sync → step i s = None).
Proof.
  intros Hn Hrun.
  assert (length (threads s) = callers ∧ countdown_inv n s ∧ starved_inv s)
    as (Hlen & Hcd & Hsem & Hform).
  { apply (run_invariant
             (λ t, length (threads t) = callers ∧ countdown_inv n t ∧ starved_inv t))
      with (sched := sched) (s := boot n callers); [| | done].
    - intros i t t' (Hl & Hcd & Hsv) Hs. split; [| split].
      + by rewrite (step_length _ _ _ Hs).
      + by eapply countdown_inv_step.
      + eapply starved_inv_step; [| done | done | done]. lia.
    - split; [apply length_replicate |].
      split; [apply countdown_inv_boot | apply starved_inv_boot]. }
  split; [exact Hsem |]. split; [| split].
  - unfold returns. clear -Hform. induction Hform as [| p l [-> | ->] _ IH]; simpl; lia.
  - intros i p Hi. by apply (Forall_lookup_1 _ _ _ _ Hform Hi).
  - intros i Hi. unfold step.
    destruct (threads s !! i) as [p |] eqn:Hp; [| done]. simpl.
    destruct (Forall_lookup_1 _ _ _ _ Hform Hp) as [-> | ->]; [done |].
    simpl. by rewrite Hsem.
Qed.

Lemma missing_party_blocks_all_witness :
  let s := {| barrier := mkBarrier 1 0 0;
              threads := [SemDown (SemUp Return); SemDown (SemUp Return)] |} in
  run [1; 0] (boot 3 2) = Some s ∧
  returns (threads s) = 0 ∧ step 0 s = None ∧ step 1 s = None.
Proof.
  intros s.
  assert (run [1; 0] (boot 3 2) = Some s) as Hrun by (vm_compute; reflexivity).
  destruct (missing_party_blocks_all 3 2 [1; 0] s ltac:(lia) Hrun)
    as (_ & Hret & _ & Hstuck).
  split; [exact Hrun |]. split; [exact Hret |].
  split; apply Hstuck; discriminate.
Defined.

(** *** Party counts above the signed range *)

Lemma int32_wrap_high z :
  (2 ^ 31 ≤ z < 2 ^ 32)%Z → int32_wrap z = (z - 2 ^ 32)%Z.
Proof.
  intros Hz. unfold int32_wrap.
  replace (z + 2 ^ 31)%Z with (z - 2 ^ 31 + 1 * 2 ^ 32)%Z by lia.
  rewrite Z_mod_plus_full, Z.mod_small by lia. lia.
Qed.

(** X6: a barrier built with a party count above 2^31 (and below 2^32,
    the range of the constructor's [uint32_t] argument) starts with a
    negative countdown, and the first call made by any context panics. *)
Theorem huge_party_count_panics (n : Z) (callers i : nat) :
  (2 ^ 31 < n < 2 ^ 32)%Z → i < callers →
  count (Barrier_new n) = (n - 2 ^ 32)%Z ∧
  ∃ s',
    step i (boot n callers) = Some s' ∧
    count (barrier s') = (n - 1 - 2 ^ 32)%Z ∧
    threads s' !! i = Some (Panic panic_msg (sync_tail (n - 1 - 2 ^ 32))) ∧
    ∀ sched s'', run sched s' = Some s'' →
                 threads s'' !! i
                 = Some (Panic panic_msg (sync_tail (n - 1 - 2 ^ 32))).
Proof.
  intros Hn Hi.
  assert (count (Barrier_new n) = (n - 2 ^ 32)%Z) as Hc
    by (simpl; apply int32_wrap_high; lia).
  split; [exact Hc |].
  assert (threads (boot n callers) !! i = Some sync) as Hsync.
  { simpl. by apply lookup_replicate_2. }
  assert (int32_wrap (count (barrier (boot n callers)) + -1) = (n - 1 - 2 ^ 32)%Z)
    as Hx.
  { simpl. rewrite int32_wrap_add_l.
    replace (n + -1)%Z with (n - 1)%Z by lia. rewrite int32_wrap_high; lia. }
  destruct (negative_fetch_panics (boot n callers) i Hsync)
    as (s' & Hstep & Hcount & Hat & _ & Hstay); [rewrite Hx; lia |].
  rewrite Hx in Hcount, Hat, Hstay. exists s'. done.
Qed.

Lemma huge_party_count_panics_witness :
  count (Barrier_new 4294967295) = (-1)%Z ∧
  ∃ s',
    step 0 (boot 4294967295 1) = Some s' ∧
    count (barrier s') = (-2)%Z ∧
    threads s' !! 0 = Some (Panic panic_msg (sync_tail (-2))).
Proof.
  destruct (huge_party_count_panics 4294967295 1 0) as [Hc (s' & Hs & Hc' & Hat & _)];
    [lia | lia |].
  split; [exact Hc |]. exists s'. split; [exact Hs |]. split; [exact Hc' | exact Hat].
Defined.

(** *** More callers than parties *)

Lemma passed_step n i s s' :
  (0 ≤ n < 2 ^ 31)%Z →
  (Z.of_nat (length (threads s)) ≤ n + 2 ^ 31)%Z →
  countdown_inv n s →
  (Z.of_nat (arrived (threads s)) - Z.of_nat (panics (threads s)) ≤ n)%Z →
  step i s = Some s' →
  (Z.of_nat (arrived (threads s')) - Z.of_nat (panics (threads s')) ≤ n)%Z.
Proof.
  intros Hn Hlen [Hst Hc] Hpass (p & b' & p' & Hp & He & ->)%step_Some.
  pose proof (Forall_lookup_1 _ _ _ _ Hst Hp) as Hsp.
  pose proof (sum_list_with_insert pending (threads s) i p p' Hp) as Hpend.
  pose proof (sum_list_with_insert dead (threads s) i p p' Hp) as Hdd.
  pose proof (sum_list_with_le_length pending (threads s) pending_le_1) as Hle.
  pose proof (sum_list_with_lookup_le pending _ _ _ Hp) as Hge.
  unfold arrived, panics, not_arrived in *. simpl. rewrite length_insert.
  destruct Hsp; simpl in He, Hge.
  - injection He as <- <-.
    set (x := int32_wrap (count (barrier s) + -1)) in *.
    assert (x = (n - Z.of_nat (length (threads s))
                 + Z.of_nat (sum_list_with pending (threads s)) - 1)%Z) as Hx.
    { subst x. rewrite Hc, int32_wrap_add_l. rewrite int32_wrap_small; lia. }
    clearbody x. rewrite pending_after_fetch in Hpend. simpl in Hpend.
    destruct (Z.ltb_spec x 0) as [Hneg | Hpos]; simpl in Hdd; [lia |].
    unfold sync_tail in Hdd. destruct (x =? 0)%Z; simpl in Hdd; lia.
  - done.
  - destruct (sem (barrier s)); [done |]. injection He as <- <-. simpl in *. lia.
  - injection He as <- <-. simpl in *. lia.
  - done.
Qed.

(** X7: on a barrier for [n] parties ([n] below 2^31), however many
    contexts call [sync] (up to [n + 2^31] of them) and in whatever order,
    at most [n] calls are ever past the panic test: the calls waiting,
    posting or returned never number more than [n]. *)
Theorem at_most_n_calls_pass (n : Z) (callers : nat) (sched : list nat)
    (s : system) :
  (0 ≤ n < 2 ^ 31)%Z → (Z.of_nat callers ≤ n + 2 ^ 31)%Z →
  run sched (boot n callers) = Some s →
  (Z.of_nat (waiters (threads s) + tokens_in_hand (threads s)
             + returns (threads s)) ≤ n)%Z.
Proof.
  intros Hn Hcallers Hrun.
  assert (length (threads s) = callers ∧ countdown_inv n s ∧
          (Z.of_nat (arrived (threads s)) - Z.of_nat (panics (threads s)) ≤ n)%Z)
    as (Hlen & [Hst _] & Hpass).
  { apply (run_invariant
             (λ t, length (threads t) = callers ∧ countdown_inv n t ∧
                   (Z.of_nat (arrived (threads t))
                    - Z.of_nat (panics (threads t)) ≤ n)%Z))
      with (sched := sched) (s := boot n callers); [| | done].
    - intros i t t' (Hl & Hcd & Hp) Hs. split; [| split].
      + by rewrite (step_length _ _ _ Hs).
      + by eapply countdown_inv_step.
      + apply (passed_step n i t t' Hn ltac:(lia) Hcd Hp Hs).
    - split; [apply length_replicate |]. split; [apply countdown_inv_boot |].
      unfold arrived, panics, not_arrived. simpl.
      rewrite !sum_list_with_replicate, length_replicate. simpl. lia. }
  pose proof (stage_partition _ Hst) as Hpart.
  unfold arrived in Hpass. lia.
Qed.

Lemma at_most_n_calls_pass_witness :
  let s := {| barrier := mkBarrier (-2) 1 0;
              threads := [Return; Panic panic_msg (sync_tail (-1));
                          Panic panic_msg (sync_tail (-2))] |} in
  run [0; 1; 2; 0] (boot 1 3) = Some s ∧
  (Z.of_nat (waiters (threads s) + tokens_in_hand (threads s)
             + returns (threads s)) ≤ 1)%Z.
Proof.
  intros s.
  assert (run [0; 1; 2; 0] (boot 1 3) = Some s) as Hrun by (vm_compute; reflexivity).
  split; [exact Hrun |].
  exact (at_most_n_calls_pass 1 3 [0; 1; 2; 0] s ltac:(lia) ltac:(lia) Hrun).
Defined.

End BarrierLiveness.


(** ** Properties of the font table, the colour names and the ports *)

Module TableFacts.
Import VGA Tables.
Local Open Scope Z_scope.

(** *** The font *)

Lemma font_rows_all :
  Forall (λ c : nat,
            length (glyph c) = 8%nat ∧
            Forall (λ b, 0 ≤ b < 256) (glyph c) ∧
            blank (glyph c) = negb (printable c))
         (seq 0 128).
Proof. apply (bool_decide_unpack _). by vm_compute. Qed.

Lemma printable_glyphs_NoDup : NoDup (glyph <$> seq 33 94).
Proof. apply (bool_decide_unpack _). by vm_compute. Qed.

(** X8: every character code below 128 has a glyph of eight rows, each a
    byte, and the glyph is blank exactly when the code is not one of the
    printing characters '!' to '~'. *)
Theorem font_blank_iff_not_printable (c : nat) :
  (c < 128)%nat →
  length (glyph c) = 8%nat ∧
  Forall (λ b, 0 ≤ b < 256) (glyph c) ∧
  blank (glyph c) = negb (printable c).
Proof.
  intros Hc. pose proof font_rows_all as Hall.
  rewrite Forall_forall in Hall. apply Hall, elem_of_seq. lia.
Qed.

Lemma font_blank_iff_not_printable_witness :
  length (glyph 65) = 8%nat ∧
  Forall (λ b, 0 ≤ b < 256) (glyph 65) ∧
  blank (glyph 65) = false ∧ blank (glyph 32) = true.
Proof.
  destruct (font_blank_iff_not_printable 65 ltac:(lia)) as (Hl & Hb & Hp).
  destruct (font_blank_iff_not_printable 32 ltac:(lia)) as (_ & _ & Hs).
  split; [exact Hl |]. split; [exact Hb |]. split; [exact Hp | exact Hs].
Defined.

(** X9: two different printing characters never have the same glyph. *)
Theorem printable_glyphs_distinct (c c' : nat) :
  printable c = true → printable c' = true → c ≠ c' → glyph c ≠ glyph c'.
Proof.
  unfold printable. intros Hc Hc' Hne Heq.
  apply andb_true_iff in Hc as [Hc1 Hc2]. apply andb_true_iff in Hc' as [Hc1' Hc2'].
  apply Nat.leb_le in Hc1, Hc2, Hc1', Hc2'.
  assert (∀ d : nat, (33 ≤ d ≤ 126)%nat →
                     (glyph <$> seq 33 94) !! (d - 33)%nat = Some (glyph d)) as Hlook.
  { intros d Hd. rewrite list_lookup_fmap, lookup_seq_lt by lia.
    simpl. do 2 f_equal. lia. }
  pose proof (Hlook c ltac:(lia)) as Hat. rewrite Heq in Hat.
  pose proof (NoDup_lookup _ (c - 33)%nat (c' - 33)%nat (glyph c')
                printable_glyphs_NoDup Hat (Hlook c' ltac:(lia))) as Hinj. lia.
Qed.

Lemma printable_glyphs_distinct_witness :
  glyph 73 ≠ glyph 108.
Proof.
  apply (printable_glyphs_distinct 73 108); [reflexivity | reflexivity | lia].
Defined.

(** *** The colour names *)

(** X10: the enumerators of [vga_colors] number exactly the palette
    entries: every enumerator's value is below 64, different enumerators
    have different values, and every index below 64 is the value of an
    enumerator. *)
Theorem color_names_cover_palette (c c' : vga_colors) (i : nat) :
  (color_index c < 64)%nat ∧
  all_colors !! color_index c = Some c ∧
  (color_index c = color_index c' → c = c') ∧
  ((i < 64)%nat → ∃ d, color_index d = i).
Proof.
  assert (∀ d, all_colors !! color_index d = Some d) as Hlook
    by (intros d; by destruct d).
  split; [| split; [| split]].
  - by apply (lookup_lt_Some all_colors _ c).
  - apply Hlook.
  - intros Heq. pose proof (Hlook c) as H1. rewrite Heq, Hlook in H1. congruence.
  - intros Hi.
    destruct (lookup_lt_is_Some_2 all_colors i ltac:(simpl; lia)) as [d Hd].
    exists d. pose proof (Hlook d) as H1.
    assert (NoDup all_colors) as Hnd.
    { apply (NoDup_fmap_1 color_index). apply (bool_decide_unpack _). by vm_compute. }
    by apply (NoDup_lookup all_colors _ _ d Hnd).
Qed.

Lemma color_names_cover_palette_witness :
  (color_index WHITE < 64)%nat ∧
  (color_index RED = color_index TEAL → RED = TEAL) ∧
  ∃ d, color_index d = 63%nat.
Proof.
  destruct (color_names_cover_palette WHITE WHITE 63) as (Hlt & _ & _ & Hex).
  destruct (color_names_cover_palette RED TEAL 0) as (_ & _ & Hinj & _).
  split; [exact Hlt |]. split; [exact Hinj |]. apply Hex. lia.
Defined.

(** *** The palette in a six-bit DAC *)

Lemma palette_bytes_six_bit :
  Forall (λ byte, low6 byte = high6 byte ∧ low6 byte = 21 * (byte / 0x55)) palette.
Proof. apply (bool_decide_unpack _). by vm_compute. Qed.

Lemma dacRGB_NoDup : NoDup (dacRGB <$> seq 0 64).
Proof. apply (bool_decide_unpack _). by vm_compute. Qed.

(** X11: the low six bits of every palette byte equal the byte with its low
    two bits dropped, and are 21 times the byte's level (0, 21, 42 or 63);
    and the 64 palette entries stay pairwise different when each channel is
    cut to six bits. *)
Theorem palette_survives_six_bit_dac (k i j : nat) (byte : Z) :
  palette !! k = Some byte →
  (i < 64)%nat → (j < 64)%nat →
  low6 byte = high6 byte ∧ low6 byte = 21 * (byte / 0x55) ∧
  (i ≠ j → dacRGB i ≠ dacRGB j).
Proof.
  intros Hk Hi Hj.
  pose proof (Forall_lookup_1 _ _ _ _ palette_bytes_six_bit Hk) as [H1 H2].
  split; [exact H1 |]. split; [exact H2 |].
  intros Hne Heq. apply Hne.
  apply (NoDup_lookup _ i j (dacRGB i) dacRGB_NoDup).
  - by rewrite list_lookup_fmap, lookup_seq_lt.
  - rewrite Heq. by rewrite list_lookup_fmap, lookup_seq_lt.
Qed.

Lemma palette_survives_six_bit_dac_witness :
  low6 0xAA = high6 0xAA ∧ low6 0xAA = 42 ∧ dacRGB 21 ≠ dacRGB 42.
Proof.
  destruct (palette_survives_six_bit_dac 8 21 42 0xAA eq_refl) as (H1 & H2 & H3);
    [lia | lia |].
  split; [exact H1 |]. split; [exact H2 |]. apply H3. lia.
Defined.

(** *** The port macros *)

(** X12: no two of the seventeen port macros name the same I/O address,
    and all of them lie between 0x3B4 and 0x3DA. *)
Theorem port_macros_do_not_alias :
  NoDup port_macros ∧ Forall (λ p, 0x3B4 ≤ p ≤ 0x3DA) port_macros.
Proof. split; apply (bool_decide_unpack _); by vm_compute. Qed.

End TableFacts.
